(** * unbalanced_dataset.pipeline: a shallow embedding of [Pipeline]

  The module chains transformers and resamplers in front of a final
  estimator.  Python objects are duck typed: a step is an object
  reference whose class either provides a method or does not, and the
  pipeline probes for methods with [hasattr].  Calls on steps may
  mutate the steps and may raise, so every operation of the pipeline is
  a computation in a state-and-exception monad over the store of the
  step objects, instrumented with the trace of the method calls the
  pipeline makes. *)

From Stdlib Require Import ZArith Ascii String.
From stdpp Require Import base option list gmap fin_maps strings pretty.

Local Open Scope string_scope.
Local Open Scope list_scope.
Local Open Scope Z_scope.

(** ** Python strings *)

Module PyStr.

(** [str.lower()] on a Python 2 byte string: only the ASCII capitals
    change. *)
Definition lower_ascii (c : ascii) : ascii :=
  let n := nat_of_ascii c in
  if ((65 <=? n) && (n <=? 90))%nat then ascii_of_nat (n + 32) else c.

Fixpoint lower (s : string) : string :=
  match s with
  | EmptyString => EmptyString
  | String c s' => String (lower_ascii c) (lower s')
  end.

(** Leftmost occurrence of the separator ["__"]: the text before it and
    the text after it. *)
Fixpoint cut (s : string) : option (string * string) :=
  match s with
  | EmptyString => None
  | String c s' =>
      match s' with
      | String c' rest =>
          if (Ascii.eqb c "_" && Ascii.eqb c' "_")%bool then Some (EmptyString, rest)
          else (λ '(a, b), (String c a, b)) <$> cut s'
      | EmptyString => None
      end
  end.

(** [s.split('__', 1)]: a list of one or two strings. *)
Definition split1 (s : string) : list string :=
  match cut s with
  | Some (a, b) => [a; b]
  | None => [s]
  end.

(** ["-%d" % n] *)
Definition dash_d (n : Z) : string := "-" +:+ pretty n.

End PyStr.

(** ** Exceptions *)

Inductive exn :=
| ValueError | TypeError | AttributeError | KeyError | NameError | IndexError
| StepError (msg : string).

Inductive res (A : Type) :=
| Ok (a : A)
| Raise (e : exn).
Arguments Ok {A} a.
Arguments Raise {A} e.

(** ** Name generation ([_name_estimators]) *)

Section NameEstimators.
Context {E : Type}.
(** [type(estimator).__name__] *)
Variable type_name : E → string.

(** [namecount = defaultdict(int)] and [namecount[name] += 1] over
    [zip(estimators, names)]. *)
Definition count_names (pairs : list (E * string)) : gmap string Z :=
  foldl (λ namecount '(est, name), <[name := default 0 (namecount !! name) + 1]> namecount)
        ∅ pairs.

(** [for k, v in list(namecount.items()): if v == 1: del namecount[k]] *)
Definition drop_singletons (namecount : gmap string Z) : gmap string Z :=
  foldl (λ nc '(k, v), if decide (v = 1) then delete k nc else nc)
        namecount (map_to_list namecount).

(** The body of the loop over [reversed(range(len(estimators)))].  The
    index is always in range, so [names[i]] never raises. *)
Definition suffix_step (st : list string * gmap string Z) (i : nat)
  : list string * gmap string Z :=
  let '(names, namecount) := st in
  match names !! i with
  | Some name =>
      match namecount !! name with
      | Some c => (<[i := name +:+ PyStr.dash_d c]> names, <[name := c - 1]> namecount)
      | None => st
      end
  | None => st
  end.

Definition _name_estimators (estimators : list E) : list (string * E) :=
  let names := (λ estimator, PyStr.lower (type_name estimator)) <$> estimators in
  let namecount := count_names (zip estimators names) in
  let namecount := drop_singletons namecount in
  let '(names, _) :=
    foldl suffix_step (names, namecount) (reverse (seq 0 (length estimators))) in
  zip names estimators.

(** The names by rank: a name that occurs once stays as it is, and the
    occurrence number [k] of a repeated name, counted from the front,
    gets the suffix [-k]. *)
Definition occurrences (name : string) (names : list string) : nat :=
  length (filter (λ x, x = name) names).

Definition suffixed (names : list string) (i : nat) (name : string) : string :=
  if decide (occurrences name names = 1%nat) then name
  else name +:+ PyStr.dash_d (Z.of_nat (occurrences name (take (S i) names))).

Definition names_by_rank (estimators : list E) : list (string * E) :=
  let names := (λ estimator, PyStr.lower (type_name estimator)) <$> estimators in
  imap (λ i estimator, (suffixed names i (PyStr.lower (type_name estimator)), estimator))
       estimators.

End NameEstimators.

(** ** The monad of pipeline operations *)

(** Methods of step objects, as the pipeline names them. *)
Inductive meth :=
| Fit | FitTransform | FitSample | Transform | Sample | Predict | FitPredict
| PredictProba | DecisionFunction | PredictLogProba | InverseTransform | Score.

(** Object references; two steps holding the same reference share the
    object. *)
Definition oid := nat.

(** What the pipeline does that is visible from outside: calls on step
    objects, the [print] statements of [score] and the [warn] of
    [inverse_transform]. *)
Inductive event :=
| Call (o : oid) (m : meth)
| Print (s : string)
| Warn (s : string).

Section Monad.
Context {W : Type}.

(** The store [W] holds the state of the step objects; the trace grows
    with every event. *)
Record world := World { store : W; trace : list event }.

Definition M (A : Type) : Type := world → res A * world.

Definition ret {A} (a : A) : M A := λ w, (Ok a, w).

Definition raise {A} (e : exn) : M A := λ w, (Raise e, w).

Definition bind {A B} (c : M A) (k : A → M B) : M B := λ w,
  match c w with
  | (Ok a, w') => k a w'
  | (Raise e, w') => (Raise e, w')
  end.

(** Code that touches no step object. *)
Definition liftR {A} (r : res A) : M A := λ w, (r, w).

(** Attribute access: [AttributeError] when the attribute is absent. *)
Definition getattr_ {A} (attr : option A) : M A :=
  match attr with
  | Some a => ret a
  | None => raise AttributeError
  end.

(** Calling the bound method [m] of object [o]: the call is recorded, the
    method runs on the store and may raise. *)
Definition invoke {A} (o : oid) (m : meth) (body : W → res A * W) : M A := λ w,
  let '(r, s) := body (store w) in
  (r, {| store := s; trace := trace w ++ [Call o m] |}).

Definition emit (e : event) : M unit := λ w,
  (Ok tt, {| store := store w; trace := trace w ++ [e] |}).

(** A [for] loop threading the loop-carried variables [s]; an exception
    leaves the loop. *)
Fixpoint for_ {A S} (l : list A) (body : S → A → M S) (s : S) : M S :=
  match l with
  | [] => ret s
  | a :: l' => bind (body s a) (for_ l' body)
  end.

End Monad.
Arguments world W : clear implicits.
Arguments M W A : clear implicits.

Notation "'let*' p := c 'in' k" := (bind c (λ p, k))
  (at level 10, p pattern, c at level 100, k at level 200).

(** Pure code raising exceptions. *)
Definition bindR {A B} (r : res A) (k : A → res B) : res B :=
  match r with
  | Ok a => k a
  | Raise e => Raise e
  end.

Notation "'let+' p := c 'in' k" := (bindR c (λ p, k))
  (at level 10, p pattern, c at level 100, k at level 200).

Fixpoint forR {A S} (l : list A) (body : S → A → res S) (s : S) : res S :=
  match l with
  | [] => Ok s
  | a :: l' => bindR (body s a) (forR l' body)
  end.

(** ** Python sequences and dictionaries *)

(** [l[:-1]] *)
Definition but_last {A} (l : list A) : list A := take (length l - 1) l.

(** [l[-1]] *)
Definition item_last {A} (l : list A) : res A :=
  match last l with
  | Some a => Ok a
  | None => Raise IndexError
  end.

(** [d[k]] *)
Definition getitem {V} (d : gmap string V) (k : string) : res V :=
  match d !! k with
  | Some v => Ok v
  | None => Raise KeyError
  end.

(** [dict(pairs)]: a later pair overwrites an earlier one with the same
    key. *)
Definition dict_of {V} (pairs : list (string * V)) : gmap string V :=
  foldl (λ d '(k, v), <[k := v]> d) ∅ pairs.

(** [a, b = l] *)
Definition unpack2 {A} (l : list A) : res (A * A) :=
  match l with
  | [a; b] => Ok (a, b)
  | _ => Raise ValueError
  end.

(** [zip] applied to the unpacked pairs: the row of the first components and the row of the
    second ones, and no row at all when there is no pair. *)
Definition zip_star {A B} (pairs : list (A * B)) : list (list A + list B) :=
  match pairs with
  | [] => []
  | _ => [inl pairs.*1; inr pairs.*2]
  end.

(** [transform] is no local variable of [inverse_transform] and no name
    of the module (nor a builtin): these are the names the module binds. *)
Definition module_globals : list string :=
  ["defaultdict"; "warn"; "BaseEstimator"; "six"; "tosequence";
   "if_delegate_has_method"; "__all__"; "Pipeline"; "_name_estimators";
   "make_pipeline"].

(** Reading a variable: the local scope first, then the module.  A local
    variable holds a step object or some other value ([None]); no module
    name holds a step object. *)
Definition load_name (locals : list (string * option oid)) (n : string)
  : res (option oid) :=
  match (dict_of locals) !! n with
  | Some v => Ok v
  | None => if bool_decide (n ∈ module_globals) then Ok None else Raise NameError
  end.

(** ** Step objects and pipelines *)

(** [self.steps]: the (name, object) pairs in order. *)
Record Pipeline := { steps : list (string * oid) }.

Section Pipeline.
Context {data target out value W : Type}.

Local Abbreviation action A := (W → res A * W).

(** The class of a step object: its type name and the methods it
    provides.  [fit] returns an object (by convention the step itself),
    on which the pipeline goes on. *)
Record methods := Methods {
  class_name : string;
  m_fit : option (data → target → gmap string value → action oid);
  m_fit_transform : option (data → target → gmap string value → action data);
  m_fit_sample : option (data → target → gmap string value → action (data * target));
  m_transform : option (data → action data);
  m_sample : option (data → target → action (data * target));
  m_predict : option (data → action out);
  m_fit_predict : option (data → target → gmap string value → action out);
  m_predict_proba : option (data → action out);
  m_decision_function : option (data → action out);
  m_predict_log_proba : option (data → action out);
  m_inverse_transform : option (data → action data);
  m_score : option (data → target → action out)
}.

(** The objects the references stand for. *)
Variable cls : oid → methods.
(** [X.shape] as printed and [X.ndim], absent on data that is no array;
    [X[None, :]]. *)
Variable shape : data → option string.
Variable ndim : data → option Z.
Variable add_axis : data → data.

Definition present {A} (attr : option A) : bool :=
  match attr with
  | Some _ => true
  | None => false
  end.

Definition hasattr (o : oid) (m : meth) : bool :=
  let c := cls o in
  match m with
  | Fit => present (m_fit c)
  | FitTransform => present (m_fit_transform c)
  | FitSample => present (m_fit_sample c)
  | Transform => present (m_transform c)
  | Sample => present (m_sample c)
  | Predict => present (m_predict c)
  | FitPredict => present (m_fit_predict c)
  | PredictProba => present (m_predict_proba c)
  | DecisionFunction => present (m_decision_function c)
  | PredictLogProba => present (m_predict_log_proba c)
  | InverseTransform => present (m_inverse_transform c)
  | Score => present (m_score c)
  end.

(** [hasattr] on the value of a variable. *)
Definition hasattr_val (v : option oid) (m : meth) : bool :=
  match v with
  | Some o => hasattr o m
  | None => false
  end.

(** *** Construction *)

Definition Pipeline_init (steps0 : list (string * oid)) : res Pipeline :=
  match zip_star steps0 with
  | [inl names; inr estimators] =>
      if decide (size (dict_of steps0) ≠ length steps0) then Raise ValueError
      else
        let transforms := but_last estimators in
        let+ estimator := item_last estimators in
        let+ _ := forR transforms (λ _ t,
          if negb (hasattr t Fit || hasattr t FitTransform || hasattr t FitSample)
             || negb (hasattr t Transform || hasattr t Sample)
          then Raise TypeError else Ok tt) tt in
        if negb (hasattr estimator Fit) then Raise TypeError
        else Ok {| steps := steps0 |}
  | _ => Raise ValueError
  end.

(** [self._final_estimator] and [self.steps[-1][-1]] *)
Definition _final_estimator (self : Pipeline) : res oid :=
  let+ (_, estimator) := item_last (steps self) in Ok estimator.

(** *** Fitting *)

(** The body of the first loop of [_pre_transform]:
    [step, param = pname.split('__', 1)] and
    [fit_params_steps[step][param] = pval]. *)
Definition set_fit_param (fit_params_steps : gmap string (gmap string value))
    (item : string * value) : res (gmap string (gmap string value)) :=
  let '(pname, pval) := item in
  let+ (step, param) := unpack2 (PyStr.split1 pname) in
  let+ d := getitem fit_params_steps step in
  Ok (<[step := <[param := pval]> d]> fit_params_steps).

(** One dictionary per step name, filled from the flat keyword arguments
    in their iteration order. *)
Definition split_fit_params (self : Pipeline) (fit_params : list (string * value))
  : res (gmap string (gmap string value)) :=
  let fit_params_steps := dict_of ((λ '(step, _), (step, ∅)) <$> steps self) in
  forR fit_params set_fit_param fit_params_steps.

Definition _pre_transform (self : Pipeline) (X : data) (y : target)
    (fit_params : list (string * value))
  : M W (data * target * gmap string value) :=
  let* fit_params_steps := liftR (split_fit_params self fit_params) in
  let* (Xt, yt) := for_ (but_last (steps self)) (λ '(Xt, yt) '(name, transform),
    if hasattr transform FitTransform then
      let* f := getattr_ (m_fit_transform (cls transform)) in
      let* kw := liftR (getitem fit_params_steps name) in
      let* Xt := invoke transform FitTransform (f Xt yt kw) in
      ret (Xt, yt)
    else if hasattr transform FitSample then
      let* f := getattr_ (m_fit_sample (cls transform)) in
      let* kw := liftR (getitem fit_params_steps name) in
      let* (Xt, yt) := invoke transform FitSample (f Xt yt kw) in
      ret (Xt, yt)
    else
      let* f := getattr_ (m_fit (cls transform)) in
      let* kw := liftR (getitem fit_params_steps name) in
      let* fitted := invoke transform Fit (f Xt yt kw) in
      let* g := getattr_ (m_transform (cls fitted)) in
      let* Xt := invoke fitted Transform (g Xt) in
      ret (Xt, yt)) (X, y) in
  let* (name, _) := liftR (item_last (steps self)) in
  let* kw := liftR (getitem fit_params_steps name) in
  ret (Xt, yt, kw).

Definition fit (self : Pipeline) (X : data) (y : target)
    (fit_params : list (string * value)) : M W unit :=
  let* (Xt, yt, fit_params) := _pre_transform self X y fit_params in
  let* final := liftR (_final_estimator self) in
  let* f := getattr_ (m_fit (cls final)) in
  let* _ := invoke final Fit (f Xt yt fit_params) in
  ret tt.

Definition fit_transform (self : Pipeline) (X : data) (y : target)
    (fit_params : list (string * value)) : M W data :=
  let* (Xt, yt, fit_params) := _pre_transform self X y fit_params in
  let* final := liftR (_final_estimator self) in
  if hasattr final FitTransform then
    let* f := getattr_ (m_fit_transform (cls final)) in
    invoke final FitTransform (f Xt yt fit_params)
  else
    let* f := getattr_ (m_fit (cls final)) in
    let* fitted := invoke final Fit (f Xt yt fit_params) in
    let* g := getattr_ (m_transform (cls fitted)) in
    invoke fitted Transform (g Xt).

(** *** Operations delegated to the final estimator *)

(** Modelled from the spec: the decorator [if_delegate_has_method] comes
    from scikit-learn and is absent from the sources; by section 4.3 an
    operation is available only if the final step exposes the matching
    capability, and the not-supported error surfaces at call time.  The
    attribute is probed on [self._final_estimator] before the body of the
    method runs. *)
Definition if_delegate_has_method (self : Pipeline) (m : meth) : M W unit :=
  let* final := liftR (_final_estimator self) in
  if hasattr final m then ret tt else raise AttributeError.

Definition fit_sample (self : Pipeline) (X : data) (y : target)
    (fit_params : list (string * value)) : M W (data * target) :=
  let* _ := if_delegate_has_method self FitSample in
  let* (Xt, yt, fit_params) := _pre_transform self X y fit_params in
  let* final := liftR (_final_estimator self) in
  let* f := getattr_ (m_fit_sample (cls final)) in
  invoke final FitSample (f Xt yt fit_params).

Definition sample (self : Pipeline) (X : data) (y : target) : M W (data * target) :=
  let* _ := if_delegate_has_method self Sample in
  let* Xt := for_ (but_last (steps self)) (λ Xt '(name, transform),
    if hasattr transform FitSample then ret Xt
    else
      let* g := getattr_ (m_transform (cls transform)) in
      invoke transform Transform (g Xt)) X in
  let* final := liftR (_final_estimator self) in
  let* f := getattr_ (m_sample (cls final)) in
  invoke final Sample (f Xt y).

Definition predict (self : Pipeline) (X : data) : M W out :=
  let* _ := if_delegate_has_method self Predict in
  let* Xt := for_ (but_last (steps self)) (λ Xt '(name, transform),
    if hasattr transform FitSample then ret Xt
    else
      let* g := getattr_ (m_transform (cls transform)) in
      invoke transform Transform (g Xt)) X in
  let* final := liftR (_final_estimator self) in
  let* f := getattr_ (m_predict (cls final)) in
  invoke final Predict (f Xt).

Definition fit_predict (self : Pipeline) (X : data) (y : target)
    (fit_params : list (string * value)) : M W out :=
  let* _ := if_delegate_has_method self FitPredict in
  let* (Xt, yt, fit_params) := _pre_transform self X y fit_params in
  let* final := liftR (_final_estimator self) in
  let* f := getattr_ (m_fit_predict (cls final)) in
  invoke final FitPredict (f Xt yt fit_params).

Definition predict_proba (self : Pipeline) (X : data) : M W out :=
  let* _ := if_delegate_has_method self PredictProba in
  let* Xt := for_ (but_last (steps self)) (λ Xt '(name, transform),
    if hasattr transform FitSample then ret Xt
    else
      let* g := getattr_ (m_transform (cls transform)) in
      invoke transform Transform (g Xt)) X in
  let* final := liftR (_final_estimator self) in
  let* f := getattr_ (m_predict_proba (cls final)) in
  invoke final PredictProba (f Xt).

Definition decision_function (self : Pipeline) (X : data) : M W out :=
  let* _ := if_delegate_has_method self DecisionFunction in
  let* Xt := for_ (but_last (steps self)) (λ Xt '(name, transform),
    if hasattr transform FitSample then ret Xt
    else
      let* g := getattr_ (m_transform (cls transform)) in
      invoke transform Transform (g Xt)) X in
  let* final := liftR (_final_estimator self) in
  let* f := getattr_ (m_decision_function (cls final)) in
  invoke final DecisionFunction (f Xt).

Definition predict_log_proba (self : Pipeline) (X : data) : M W out :=
  let* _ := if_delegate_has_method self PredictLogProba in
  let* Xt := for_ (but_last (steps self)) (λ Xt '(name, transform),
    if hasattr transform FitSample then ret Xt
    else
      let* g := getattr_ (m_transform (cls transform)) in
      invoke transform Transform (g Xt)) X in
  let* final := liftR (_final_estimator self) in
  let* f := getattr_ (m_predict_log_proba (cls final)) in
  invoke final PredictLogProba (f Xt).

(** The loop of [transform] runs over all the steps, the last one
    included. *)
Definition transform (self : Pipeline) (X : data) : M W data :=
  let* _ := if_delegate_has_method self Transform in
  let* Xt := for_ (steps self) (λ Xt '(name, transform),
    if hasattr transform FitSample then ret Xt
    else
      let* g := getattr_ (m_transform (cls transform)) in
      invoke transform Transform (g Xt)) X in
  ret Xt.

(** The local variables of [inverse_transform] inside its loop. *)
Definition inverse_transform_locals (step : oid) : list (string * option oid) :=
  [("self", None); ("X", None); ("Xt", None); ("name", None); ("step", Some step)].

Definition inverse_transform (self : Pipeline) (X : data) : M W data :=
  let* _ := if_delegate_has_method self InverseTransform in
  let* nd := getattr_ (ndim X) in
  let* X :=
    (if decide (nd = 1) then
       let* _ := emit (Warn "From version 0.19, a 1d X will not be reshaped in pipeline.inverse_transform any more.") in
       ret (add_axis X)
     else ret X) in
  let* Xt := for_ (reverse (steps self)) (λ Xt '(name, step),
    let* transform := liftR (load_name (inverse_transform_locals step) "transform") in
    if hasattr_val transform FitSample then ret Xt
    else
      let* g := getattr_ (m_inverse_transform (cls step)) in
      invoke step InverseTransform (g Xt)) X in
  ret Xt.

(** [print Xt.shape] *)
Definition print_shape (Xt : data) : M W unit :=
  let* s := getattr_ (shape Xt) in emit (Print s).

Definition score (self : Pipeline) (X : data) (y : target) : M W out :=
  let* _ := if_delegate_has_method self Score in
  let* Xt := for_ (but_last (steps self)) (λ Xt '(name, transform),
    if hasattr transform FitSample then ret Xt
    else
      let* _ := print_shape Xt in
      let* g := getattr_ (m_transform (cls transform)) in
      let* Xt := invoke transform Transform (g Xt) in
      let* _ := print_shape Xt in
      ret Xt) X in
  let* final := liftR (_final_estimator self) in
  let* f := getattr_ (m_score (cls final)) in
  invoke final Score (f Xt y).

(** [make_pipeline]: the steps are named after their types. *)
Definition make_pipeline (estimators : list oid) : res Pipeline :=
  Pipeline_init (_name_estimators (λ o, class_name (cls o)) estimators).

End Pipeline.
Arguments methods : clear implicits.

(** ** What the documentation says, for comparison with the code *)

Section Documented.
Context {data target out value W : Type}.
Variable cls : oid → methods data target out value W.

(** The operations that apply the steps in front of the final estimator
    to the data and then call the final estimator. *)
Inductive inference_op :=
| OpPredict | OpPredictProba | OpDecisionFunction | OpPredictLogProba
| OpTransform | OpScore.

Definition op_meth (op : inference_op) : meth :=
  match op with
  | OpPredict => Predict
  | OpPredictProba => PredictProba
  | OpDecisionFunction => DecisionFunction
  | OpPredictLogProba => PredictLogProba
  | OpTransform => Transform
  | OpScore => Score
  end.

(** A step with a resampling capability. *)
Definition is_resampler (step : string * oid) : bool := hasattr cls step.2 FitSample.

(** The data goes through the [transform] of each of the given steps. *)
Fixpoint through (ts : list (string * oid)) (Xt : data) : M W data :=
  match ts with
  | [] => ret Xt
  | (_, t) :: ts' =>
      let* g := getattr_ (m_transform (cls t)) in
      let* Xt := invoke t Transform (g Xt) in
      through ts' Xt
  end.

(** The capability of the final step that matches the operation. *)
Definition terminal (op : inference_op) (final : oid) (Xt : data) (y : target)
  : M W (data + out) :=
  match op with
  | OpPredict =>
      let* f := getattr_ (m_predict (cls final)) in
      let* r := invoke final Predict (f Xt) in ret (inr r)
  | OpPredictProba =>
      let* f := getattr_ (m_predict_proba (cls final)) in
      let* r := invoke final PredictProba (f Xt) in ret (inr r)
  | OpDecisionFunction =>
      let* f := getattr_ (m_decision_function (cls final)) in
      let* r := invoke final DecisionFunction (f Xt) in ret (inr r)
  | OpPredictLogProba =>
      let* f := getattr_ (m_predict_log_proba (cls final)) in
      let* r := invoke final PredictLogProba (f Xt) in ret (inr r)
  | OpTransform =>
      let* f := getattr_ (m_transform (cls final)) in
      let* r := invoke final Transform (f Xt) in ret (inl r)
  | OpScore =>
      let* f := getattr_ (m_score (cls final)) in
      let* r := invoke final Score (f Xt y) in ret (inr r)
  end.

(** Inference as described: the steps before the last one that are no
    resamplers transform the data, and the final step gets the terminal
    call. *)
Definition inference_described (op : inference_op) (self : Pipeline) (X : data)
    (y : target) : M W (data + out) :=
  let* _ := if_delegate_has_method cls self (op_meth op) in
  let* Xt := through (filter (λ step, is_resampler step = false) (but_last (steps self))) X in
  let* final := liftR (_final_estimator self) in
  terminal op final Xt y.

(** [transform] as the code has it: the skip rule covers the last step
    too, and there is no terminal call besides. *)
Definition transform_all_steps (self : Pipeline) (X : data) : M W (data + out) :=
  let* _ := if_delegate_has_method cls self Transform in
  let* Xt := through (filter (λ step, is_resampler step = false) (steps self)) X in
  ret (inl Xt).

(** [inverse_transform] as its docstring has it: from the last step to
    the first, each step's [inverse_transform]. *)
Fixpoint inverse_through (ts : list (string * oid)) (Xt : data) : M W data :=
  match ts with
  | [] => ret Xt
  | (_, t) :: ts' =>
      let* g := getattr_ (m_inverse_transform (cls t)) in
      let* Xt := invoke t InverseTransform (g Xt) in
      inverse_through ts' Xt
  end.

Definition inverse_transform_described (self : Pipeline) (X : data) : M W data :=
  let* _ := if_delegate_has_method cls self InverseTransform in
  inverse_through (reverse (steps self)) X.

(** One step of the pre-transform phase as described, with the keyword
    arguments [kw] of the step. *)
Definition pre_step_described (kw : gmap string value) (t : oid) (Xy : data * target)
  : M W (data * target) :=
  match m_fit_transform (cls t), m_fit_sample (cls t) with
  | Some fit_transform, _ =>
      let* Xt := invoke t FitTransform (fit_transform Xy.1 Xy.2 kw) in
      ret (Xt, Xy.2)
  | None, Some fit_sample =>
      invoke t FitSample (fit_sample Xy.1 Xy.2 kw)
  | None, None =>
      let* fit := getattr_ (m_fit (cls t)) in
      let* fitted := invoke t Fit (fit Xy.1 Xy.2 kw) in
      let* transform := getattr_ (m_transform (cls fitted)) in
      let* Xt := invoke fitted Transform (transform Xy.1) in
      ret (Xt, Xy.2)
  end.

(** The parameter sub-mapping of a step: the entries [name__param] of the
    flat mapping, keyed by [param]. *)
Definition entries_of (name : string) (fit_params : list (string * value))
  : list (string * value) :=
  omap (λ '(pname, pval),
    match PyStr.cut pname with
    | Some (step, param) => if decide (step = name) then Some (param, pval) else None
    | None => None
    end) fit_params.

Definition sub_mapping (name : string) (fit_params : list (string * value))
  : gmap string value :=
  dict_of (entries_of name fit_params).

Fixpoint pre_steps_described (fit_params : list (string * value))
    (ts : list (string * oid)) (Xy : data * target) : M W (data * target) :=
  match ts with
  | [] => ret Xy
  | (name, t) :: ts' =>
      let* Xy := pre_step_described (sub_mapping name fit_params) t Xy in
      pre_steps_described fit_params ts' Xy
  end.

(** The calls one step of the pre-transform phase makes. *)
Definition pre_step_calls (t : oid) (evs : list event) : Prop :=
  if hasattr cls t FitTransform then evs = [Call t FitTransform]
  else if hasattr cls t FitSample then evs = [Call t FitSample]
  else ∃ fitted, evs = [Call t Fit; Call fitted Transform].

(** A key of the flat mapping that names a parameter of a step of the
    pipeline. *)
Definition key_of_step (self : Pipeline) (pname : string) : Prop :=
  ∃ step param, PyStr.cut pname = Some (step, param) ∧ step ∈ (steps self).*1.

(** The dictionaries of the steps after the keys [seen] of the flat
    mapping: each step name holds the entries seen for it. *)
Definition split_so_far (self : Pipeline) (seen : list (string * value))
    (fps : gmap string (gmap string value)) : Prop :=
  ∀ name, fps !! name
          = if decide (name ∈ (steps self).*1) then Some (sub_mapping name seen) else None.

(** What construction asks of the steps. *)
Definition fit_like (t : oid) : bool :=
  hasattr cls t Fit || hasattr cls t FitTransform || hasattr cls t FitSample.

Definition transform_like (t : oid) : bool :=
  hasattr cls t Transform || hasattr cls t Sample.

Definition steps_valid (steps0 : list (string * oid)) : Prop :=
  ∃ ts name estimator,
    steps0 = ts ++ [(name, estimator)]
    ∧ Forall (λ step, fit_like step.2 = true ∧ transform_like step.2 = true) ts
    ∧ hasattr cls estimator Fit = true.

(** The operations behind [if_delegate_has_method]. *)
Definition delegated (m : meth) : bool :=
  match m with
  | Fit | FitTransform => false
  | _ => true
  end.

End Documented.

(** What a call of a pipeline method gives back. *)
Inductive retval (data target out : Type) :=
| RSelf
| RData (Xt : data)
| RSample (Xy : data * target)
| ROut (r : out).
Arguments RSelf {data target out}.
Arguments RData {data target out} Xt.
Arguments RSample {data target out} Xy.
Arguments ROut {data target out} r.

Section Dispatch.
Context {data target out value W : Type}.
Variable cls : oid → methods data target out value W.
Variable shape : data → option string.
Variable ndim : data → option Z.
Variable add_axis : data → data.

(** [getattr(pipeline, m)(X, y, **fit_params)], with the arguments the
    method takes. *)
Definition call_method (m : meth) (self : Pipeline) (X : data) (y : target)
    (fit_params : list (string * value)) : M W (retval data target out) :=
  match m with
  | Fit => let* _ := fit cls self X y fit_params in ret RSelf
  | FitTransform => let* r := fit_transform cls self X y fit_params in ret (RData r)
  | FitSample => let* r := fit_sample cls self X y fit_params in ret (RSample r)
  | Transform => let* r := transform cls self X in ret (RData r)
  | Sample => let* r := sample cls self X y in ret (RSample r)
  | Predict => let* r := predict cls self X in ret (ROut r)
  | FitPredict => let* r := fit_predict cls self X y fit_params in ret (ROut r)
  | PredictProba => let* r := predict_proba cls self X in ret (ROut r)
  | DecisionFunction => let* r := decision_function cls self X in ret (ROut r)
  | PredictLogProba => let* r := predict_log_proba cls self X in ret (ROut r)
  | InverseTransform => let* r := inverse_transform cls ndim add_axis self X in ret (RData r)
  | Score => let* r := score cls shape self X y in ret (ROut r)
  end.

Definition run_inference (op : inference_op) (self : Pipeline) (X : data) (y : target)
  : M W (data + out) :=
  match op with
  | OpPredict => let* r := predict cls self X in ret (inr r)
  | OpPredictProba => let* r := predict_proba cls self X in ret (inr r)
  | OpDecisionFunction => let* r := decision_function cls self X in ret (inr r)
  | OpPredictLogProba => let* r := predict_log_proba cls self X in ret (inr r)
  | OpTransform => let* r := transform cls self X in ret (inl r)
  | OpScore => let* r := score cls shape self X y in ret (inr r)
  end.

(** The calls on step objects in a trace, and what an observer of the
    steps sees of a run: the outcome, the store and the calls. *)
Definition calls (evs : list event) : list (oid * meth) :=
  omap (λ e, match e with Call o m => Some (o, m) | _ => None end) evs.

Definition observe {A} (r : res A * world W) : res A * W * list (oid * meth) :=
  (r.1, store r.2, calls (trace r.2)).

(** Two worlds that differ in printed lines and warnings only. *)
Definition same_view (w1 w2 : world W) : Prop :=
  store w1 = store w2 ∧ calls (trace w1) = calls (trace w2).

(** Inference as the code has it: as described, except that [transform]
    treats the last step like the others. *)
Definition inference_as_coded (op : inference_op) (self : Pipeline) (X : data)
    (y : target) : M W (data + out) :=
  match op with
  | OpTransform => transform_all_steps cls self X
  | _ => inference_described cls op self X y
  end.

End Dispatch.

(** ** A small estimator zoo *)

Module Demo.

(** Data are columns of integers, targets too; the store maps an object
    to the parameter it learned. *)
Definition data := list Z.
Definition target := list Z.
Definition W := gmap nat Z.

Definition learned (o : oid) (s : W) : Z := default 0 (s !! o).

Definition no_methods (name : string) : methods data target Z Z W :=
  Methods name None None None None None None None None None None None None.

(** Object 0: a scaler that learns the first entry as offset. *)
Definition scaler_fit (X : data) (y : target) (kw : gmap string Z) (s : W)
  : res oid * W := (Ok 0%nat, <[0%nat := default 0 (head X) + default 0 (kw !! "shift")]> s).
Definition scaler_transform (X : data) (s : W) : res data * W :=
  (Ok ((λ x, x - learned 0%nat s) <$> X), s).
Definition scaler_fit_transform (X : data) (y : target) (kw : gmap string Z) (s : W)
  : res data * W := scaler_transform X (scaler_fit X y kw s).2.
Definition scaler_inverse (X : data) (s : W) : res data * W :=
  (Ok ((λ x, x + learned 0%nat s) <$> X), s).

(** Object 1: a resampler doubling the data. *)
Definition sampler_fit (X : data) (y : target) (kw : gmap string Z) (s : W)
  : res oid * W := (Ok 1%nat, <[1%nat := Z.of_nat (length X)]> s).
Definition sampler_sample (X : data) (y : target) (s : W) : res (data * target) * W :=
  (Ok (X ++ X, y ++ y), s).
Definition sampler_fit_sample (X : data) (y : target) (kw : gmap string Z) (s : W)
  : res (data * target) * W := sampler_sample X y (sampler_fit X y kw s).2.

(** Object 2: a classifier that learns the sum of the data. *)
Definition clf_fit (X : data) (y : target) (kw : gmap string Z) (s : W)
  : res oid * W := (Ok 2%nat, <[2%nat := foldr Z.add 0 X + default 0 (kw !! "C")]> s).
Definition clf_predict (X : data) (s : W) : res Z * W :=
  (Ok (foldr Z.add 0 X - learned 2%nat s), s).

Definition clf_score (X : data) (y : target) (s : W) : res Z * W :=
  (Ok (foldr Z.add 0 y - learned 2%nat s), s).

(** Object 6: an invertible shift by one. *)
Definition shift_fit (X : data) (y : target) (kw : gmap string Z) (s : W)
  : res oid * W := (Ok 6%nat, s).
Definition shift_transform (X : data) (s : W) : res data * W :=
  (Ok ((λ x, x + 1) <$> X), s).
Definition shift_inverse (X : data) (s : W) : res data * W :=
  (Ok ((λ x, x - 1) <$> X), s).

(** Object 4: a transformer with [fit] and [transform] only. *)
Definition plain_fit (X : data) (y : target) (kw : gmap string Z) (s : W)
  : res oid * W := (Ok 4%nat, <[4%nat := Z.of_nat (length X)]> s).
Definition plain_transform (X : data) (s : W) : res data * W :=
  (Ok ((λ x, x * learned 4%nat s) <$> X), s).

Definition cls (o : oid) : methods data target Z Z W :=
  match o with
  | 0%nat =>
      Methods "Scaler" (Some scaler_fit) (Some scaler_fit_transform) None
        (Some scaler_transform) None None None None None None (Some scaler_inverse) None
  | 1%nat =>
      Methods "Sampler" (Some sampler_fit) None (Some sampler_fit_sample)
        None (Some sampler_sample) None None None None None None None
  | 2%nat =>
      Methods "Classifier" (Some clf_fit) None None
        None None (Some clf_predict) None None None None None (Some clf_score)
  | 3%nat =>
      (* a resampler that can also transform *)
      Methods "Mixed" (Some sampler_fit) None (Some sampler_fit_sample)
        (Some scaler_transform) (Some sampler_sample) None None None None None None None
  | 4%nat =>
      Methods "Plain" (Some plain_fit) None None
        (Some plain_transform) None None None None None None None None
  | 6%nat =>
      Methods "Shift" (Some shift_fit) None None
        (Some shift_transform) None None None None None None (Some shift_inverse) None
  | _ => no_methods "object"
  end.

(** Columns have two dimensions. *)
Definition shape (X : data) : option string := Some ("(" +:+ pretty (length X) +:+ ", 1)").
Definition ndim (X : data) : option Z := Some 2.
Definition add_axis (X : data) : data := X.

Definition w0 : world W := {| store := ∅; trace := [] |}.

(** The scaler has learned the offset 3. *)
Definition w_fitted : world W := {| store := {[0%nat := 3]}; trace := [] |}.

Definition pipe : Pipeline :=
  {| steps := [("scaler", 0%nat); ("sampler", 1%nat); ("plain", 4%nat); ("clf", 2%nat)] |}.

(** Two invertible steps. *)
Definition invertible : Pipeline :=
  {| steps := [("scaler", 0%nat); ("shift", 6%nat)] |}.

(** A single step that resamples and transforms. *)
Definition mixed_only : Pipeline := {| steps := [("mixed", 3%nat)] |}.

End Demo.

(** ** Further code of the module, and notions to speak about it *)

(** [self.named_steps]: [dict(self.steps)] *)
Definition named_steps (self : Pipeline) : gmap string oid := dict_of (steps self).

(** A step name that [split('__', 1)] gives back from [name__param]: it
    holds no [__] and does not end in [_]. *)
Fixpoint plain_name (s : string) : bool :=
  match s with
  | EmptyString => true
  | String c s' =>
      match s' with
      | EmptyString => negb (Ascii.eqb c "_")
      | String c' _ => negb (Ascii.eqb c "_" && Ascii.eqb c' "_") && plain_name s'
      end
  end.

(** A name without the character [-], as the names of Python classes
    are. *)
Fixpoint dash_free (s : string) : bool :=
  match s with
  | EmptyString => true
  | String c s' => negb (Ascii.eqb c "-") && dash_free s'
  end.

(** A computation makes its calls within [full]: whatever its outcome,
    the calls it adds to the trace are the first ones of [full], and all of
    them when it returns a value. *)
Definition calls_within {W A : Type} (c : M W A) (full : list (oid * meth)) : Prop :=
  ∀ w r w', c w = (r, w') →
    ∃ cs, cs `prefix_of` full
          ∧ calls (trace w') = calls (trace w) ++ cs
          ∧ (∀ v, r = Ok v → cs = full).

(** A second zoo: the first one, and object 7 that can [fit] and [sample]
    and nothing else. *)
Module Demo2.

Definition bare_fit (X : Demo.data) (y : Demo.target) (kw : gmap string Z) (s : Demo.W)
  : res oid * Demo.W := (Ok 7%nat, <[7%nat := 1]> s).

Definition cls (o : oid) : methods Demo.data Demo.target Z Z Demo.W :=
  match o with
  | 7%nat =>
      Methods "Bare" (Some bare_fit) None None None (Some Demo.sampler_sample)
        None None None None None None None
  | _ => Demo.cls o
  end.

Definition pipe : Pipeline := {| steps := [("bare", 7%nat); ("clf", 2%nat)] |}.

End Demo2.

(** * Properties *)

(** ** Python strings *)

Example lower_ex : PyStr.lower "TypeA" = "typea".
Proof. reflexivity. Qed.

Example split1_ex1 : PyStr.split1 "svc__C" = ["svc"; "C"].
Proof. reflexivity. Qed.

Example split1_ex2 : PyStr.split1 "a___b__c" = ["a"; "_b__c"].
Proof. reflexivity. Qed.

Example split1_ex3 : PyStr.split1 "alpha_" = ["alpha_"].
Proof. reflexivity. Qed.

Example dash_d_ex : PyStr.dash_d 12 = "-12".
Proof. reflexivity. Qed.

Example names_ex : (_name_estimators id ["TypeA"; "TypeA"; "TypeB"]).*1 = ["typea-1"; "typea-2"; "typeb"].
Proof. vm_compute. reflexivity. Qed.

Section NameEstimatorsFacts.
Context {E : Type}.
Variable type_name : E → string.

Lemma occurrences_cons name x names :
  occurrences name (x :: names)
  = ((if decide (x = name) then 1 else 0) + occurrences name names)%nat.
Proof.
  unfold occurrences. rewrite filter_cons. destruct (decide (x = name)); reflexivity.
Qed.

Lemma occurrences_snoc name x names :
  occurrences name (names ++ [x])
  = (occurrences name names + (if decide (x = name) then 1 else 0))%nat.
Proof.
  unfold occurrences. rewrite filter_app, length_app, filter_cons, filter_nil.
  destruct (decide (x = name)); reflexivity.
Qed.

Lemma occurrences_take_S name names i x :
  names !! i = Some x →
  occurrences name (take (S i) names)
  = (occurrences name (take i names) + (if decide (x = name) then 1 else 0))%nat.
Proof.
  intros Hi. rewrite (take_S_r _ _ _ Hi). apply occurrences_snoc.
Qed.

Lemma occurrences_take_le name names i :
  (occurrences name (take i names) ≤ occurrences name names)%nat.
Proof.
  rewrite <- (take_drop i names) at 2. unfold occurrences.
  rewrite filter_app, length_app. lia.
Qed.

Lemma occurrences_pos name names i :
  names !! i = Some name → (0 < occurrences name (take (S i) names))%nat.
Proof.
  intros Hi. rewrite (occurrences_take_S _ _ _ _ Hi).
  destruct (decide (name = name)); [lia | done].
Qed.

Lemma count_names_fold (pairs : list (E * string)) (m : gmap string Z) b :
  foldl (λ namecount '(est, name), <[name := default 0 (namecount !! name) + 1]> namecount)
        m pairs !! b
  = if decide (occurrences b pairs.*2 = 0%nat) then m !! b
    else Some (default 0 (m !! b) + Z.of_nat (occurrences b pairs.*2)).
Proof.
  revert m. induction pairs as [|[est name] pairs IH]; intros m.
  - reflexivity.
  - cbn [foldl fmap list_fmap snd]. rewrite IH, occurrences_cons.
    destruct (decide (name = b)) as [->|Hne].
    + rewrite lookup_insert_eq. cbn [default].
      destruct (decide (occurrences b pairs.*2 = 0%nat)) as [Hz|?];
        (destruct (decide _); [lia|]); unfold id; f_equal; lia.
    + rewrite lookup_insert_ne by done. reflexivity.
Qed.

Lemma count_names_lookup (pairs : list (E * string)) b :
  count_names pairs !! b
  = if decide (occurrences b pairs.*2 = 0%nat) then None
    else Some (Z.of_nat (occurrences b pairs.*2)).
Proof.
  unfold count_names. rewrite count_names_fold, lookup_empty. reflexivity.
Qed.

Lemma drop_fold (l : list (string * Z)) (m : gmap string Z) b :
  foldl (λ nc '(k, v), if decide (v = 1) then delete k nc else nc) m l !! b
  = if decide ((b, 1) ∈ l) then None else m !! b.
Proof.
  revert m. induction l as [|[k v] l IH]; intros m.
  - cbn. destruct (decide _) as [H|]; [by apply elem_of_nil in H | done].
  - cbn [foldl]. rewrite IH.
    destruct (decide ((b, 1) ∈ l)) as [Hin|Hnin].
    + rewrite decide_True by (by right). done.
    + destruct (decide (v = 1)) as [->|Hv].
      * destruct (decide (k = b)) as [->|Hk].
        -- rewrite lookup_delete_eq, decide_True by left. done.
        -- rewrite lookup_delete_ne by done.
           rewrite decide_False; [done|]. rewrite elem_of_cons.
           intros [H|?]; [inversion H; congruence | done].
      * rewrite decide_False; [done|]. rewrite elem_of_cons.
        intros [H|?]; [inversion H; congruence | done].
Qed.

Lemma drop_singletons_lookup (m : gmap string Z) b :
  drop_singletons m !! b = if decide (m !! b = Some 1) then None else m !! b.
Proof.
  unfold drop_singletons. rewrite drop_fold.
  destruct (decide ((b, 1) ∈ map_to_list m)) as [Hin|Hnin].
  - apply elem_of_map_to_list in Hin. rewrite decide_True; done.
  - rewrite decide_False; [done|]. intros H. apply Hnin. by apply elem_of_map_to_list.
Qed.

Lemma occurrences_lookup_pos name names i :
  names !! i = Some name → (1 ≤ occurrences name names)%nat.
Proof.
  intros Hi. pose proof (occurrences_pos _ _ _ Hi).
  pose proof (occurrences_take_le name names (S i)). lia.
Qed.

Lemma suffix_loop (names0 : list string) (k : nat) :
  ∀ (names : list string) (nc : gmap string Z),
    (k ≤ length names0)%nat →
    length names = length names0 →
    (∀ j, (j < k)%nat → names !! j = names0 !! j) →
    (∀ b, nc !! b = if decide (2 ≤ occurrences b names0)%nat
                    then Some (Z.of_nat (occurrences b (take k names0))) else None) →
    ∃ names' nc',
      foldl suffix_step (names, nc) (reverse (seq 0 k)) = (names', nc')
      ∧ length names' = length names0
      ∧ (∀ j b, (j < k)%nat → names0 !! j = Some b →
                names' !! j = Some (suffixed names0 j b))
      ∧ (∀ j, (k ≤ j)%nat → names' !! j = names !! j).
Proof.
  induction k as [|k IH]; intros names nc Hk Hlen Hlow Hnc.
  - exists names, nc. cbn. split_and!; [done | done | intros; lia | done].
  - rewrite seq_S, reverse_app. cbn [reverse rev_append app foldl Nat.add].
    destruct (lookup_lt_is_Some_2 names0 k) as [b Hb]; [lia|].
    assert (names !! k = Some b) as Hnk by (rewrite Hlow by lia; done).
    pose proof (occurrences_lookup_pos _ _ _ Hb) as Hpos.
    pose proof (Hnc b) as Hncb.
    unfold suffix_step at 2. rewrite Hnk.
    destruct (decide (2 ≤ occurrences b names0)%nat) as [Hdup|Hsingle].
    + rewrite Hncb.
      set (c := Z.of_nat (occurrences b (take (S k) names0))) in *.
      destruct (IH (<[k := b +:+ PyStr.dash_d c]> names) (<[b := c - 1]> nc))
        as (names' & nc' & Hfold & Hlen' & Hdone & Hrest).
      * lia.
      * by rewrite length_insert.
      * intros j Hj. rewrite list_lookup_insert_ne by lia. apply Hlow. lia.
      * intros b'. destruct (decide (b = b')) as [<-|Hne].
        -- rewrite lookup_insert_eq, decide_True by done. f_equal. subst c.
           rewrite (occurrences_take_S _ _ _ _ Hb), decide_True by done. lia.
        -- rewrite lookup_insert_ne, Hnc by done.
           destruct (decide (2 ≤ _)%nat); [|done].
           rewrite (occurrences_take_S _ _ _ _ Hb), decide_False by done.
           by rewrite Nat.add_0_r.
      * exists names', nc'. split_and!; [done | done | | ].
        -- intros j b' Hj Hb'. destruct (decide (j = k)) as [->|Hjk].
           ++ rewrite Hrest by lia. rewrite list_lookup_insert_eq by lia.
              assert (b' = b) as -> by congruence.
              unfold suffixed. rewrite decide_False by lia. done.
           ++ apply Hdone; [lia | done].
        -- intros j Hj. rewrite Hrest by lia. apply list_lookup_insert_ne. lia.
    + rewrite Hncb.
      destruct (IH names nc) as (names' & nc' & Hfold & Hlen' & Hdone & Hrest).
      * lia.
      * done.
      * intros j Hj. apply Hlow. lia.
      * intros b'. rewrite Hnc. destruct (decide (2 ≤ _)%nat) as [Hdup'|]; [|done].
        rewrite (occurrences_take_S _ _ _ _ Hb).
        rewrite decide_False by (intros ->; done). by rewrite Nat.add_0_r.
      * exists names', nc'. split_and!; [done | done | | ].
        -- intros j b' Hj Hb'. destruct (decide (j = k)) as [->|Hjk].
           ++ rewrite Hrest, Hnk by lia.
              assert (b' = b) as -> by congruence.
              unfold suffixed. rewrite decide_True by lia. done.
           ++ apply Hdone; [lia | done].
        -- intros j Hj. apply Hrest. lia.
Qed.

Lemma name_estimators_by_rank (estimators : list E) :
  _name_estimators type_name estimators = names_by_rank type_name estimators.
Proof.
  unfold _name_estimators, names_by_rank.
  set (names0 := (λ estimator, PyStr.lower (type_name estimator)) <$> estimators).
  assert (length names0 = length estimators) as Hlen0 by apply length_fmap.
  destruct (suffix_loop names0 (length estimators) names0
              (drop_singletons (count_names (zip estimators names0))))
    as (names' & nc' & Hfold & Hlen' & Hdone & _).
  - lia.
  - done.
  - done.
  - intros b. rewrite drop_singletons_lookup, count_names_lookup.
    rewrite snd_zip by lia. rewrite take_ge by lia.
    destruct (decide (occurrences b names0 = 0%nat)) as [Hz|Hnz].
    + rewrite decide_False by done. rewrite decide_False by lia. done.
    + destruct (decide (2 ≤ occurrences b names0)%nat) as [Hdup|Hsingle].
      * rewrite decide_False; [done|]. intros [= H]. lia.
      * rewrite decide_True; [done|]. f_equal. lia.
  - rewrite Hfold. cbv beta iota. apply list_eq. intros i.
    rewrite lookup_zip_with, list_lookup_imap.
    destruct (estimators !! i) as [e|] eqn:He.
    + assert (names0 !! i = Some (PyStr.lower (type_name e))) as Hn
        by (unfold names0; rewrite list_lookup_fmap, He; done).
      rewrite (Hdone i _ (lookup_lt_Some _ _ _ He) Hn). done.
    + cbn. destruct (names' !! i); done.
Qed.

End NameEstimatorsFacts.

(** C2, as the code has it: the names [_name_estimators] gives are the
    names by rank.  A type name that occurs once is only lowercased; the
    occurrence number [k] of a repeated name, counted from the front, gets
    the suffix [-k], so the last occurrence carries the highest suffix (the
    number of occurrences) and the first one [-1].  On
    [[TypeA(), TypeA(), TypeB()]] the names are [typea-1], [typea-2],
    [typeb]. *)
Theorem name_estimators_ranked :
  (∀ (E : Type) (type_name : E → string) (estimators : list E),
     _name_estimators type_name estimators = names_by_rank type_name estimators)
  ∧ _name_estimators id ["TypeA"; "TypeA"; "TypeB"]
    = [("typea-1", "TypeA"); ("typea-2", "TypeA"); ("typeb", "TypeB")].
Proof.
  split.
  - intros E type_name estimators. apply name_estimators_by_rank.
  - vm_compute. reflexivity.
Qed.

(** C2 as stated fails: on [[TypeA(), TypeA(), TypeB()]] the first
    occurrence does not get the highest suffix. *)
Lemma name_estimators_first_not_highest :
  (_name_estimators id ["TypeA"; "TypeA"; "TypeB"]).*1 ≠ ["typea-2"; "typea-1"; "typeb"].
Proof. vm_compute. discriminate. Qed.

(** ** Dictionaries built from pairs *)

Section DictFacts.
Context {V : Type}.
Implicit Types (l : list (string * V)) (k : string).

Lemma dict_of_snoc l k (v : V) : dict_of (l ++ [(k, v)]) = <[k := v]> (dict_of l).
Proof. unfold dict_of. by rewrite foldl_app. Qed.

Lemma dict_of_lookup_None l k : dict_of l !! k = None ↔ k ∉ l.*1.
Proof.
  induction l as [|[k' v] l IH] using rev_ind.
  - cbn. rewrite lookup_empty. split; [intros _; apply not_elem_of_nil | done].
  - rewrite dict_of_snoc, fmap_app, elem_of_app. cbn [fmap list_fmap fst].
    rewrite list_elem_of_singleton.
    destruct (decide (k' = k)) as [->|Hne].
    + rewrite lookup_insert_eq. split; [done | intros H; destruct H; by right].
    + rewrite lookup_insert_ne by done. rewrite IH.
      split; [intros H [?|?]; [done | congruence] | intros H ?; apply H; by left].
Qed.

Lemma dict_of_lookup_is_Some l k : is_Some (dict_of l !! k) ↔ k ∈ l.*1.
Proof.
  rewrite <- not_eq_None_Some, dict_of_lookup_None.
  split; [apply dec_stable | auto].
Qed.

Lemma dict_of_size_le l : (size (dict_of l) ≤ length l)%nat.
Proof.
  induction l as [|[k v] l IH] using rev_ind.
  - unfold dict_of. cbn. by rewrite map_size_empty.
  - rewrite dict_of_snoc, length_app. cbn [length].
    destruct (dict_of l !! k) as [v'|] eqn:Hk.
    + rewrite map_size_insert_Some by eauto. lia.
    + rewrite map_size_insert_None by done. lia.
Qed.

(** [len(dict(steps)) == len(steps)] says that no name is repeated. *)
Lemma dict_of_size_NoDup l : size (dict_of l) = length l ↔ NoDup l.*1.
Proof.
  induction l as [|[k v] l IH] using rev_ind.
  - unfold dict_of. cbn. rewrite map_size_empty. split; [intros _; constructor | done].
  - rewrite dict_of_snoc, length_app, fmap_app. cbn [length fmap list_fmap fst].
    rewrite NoDup_app, <- IH. pose proof (dict_of_size_le l) as Hle.
    destruct (dict_of l !! k) as [v'|] eqn:Hk.
    + rewrite map_size_insert_Some by eauto. split; [lia|].
      intros (_ & Hnin & _). exfalso.
      assert (k ∈ l.*1) as Hin by (apply dict_of_lookup_is_Some; eauto).
      apply (Hnin _ Hin). by left.
    + rewrite map_size_insert_None by done.
      apply dict_of_lookup_None in Hk.
      split.
      * intros Hs. split_and!; [lia | | apply NoDup_singleton].
        intros x Hx ->%list_elem_of_singleton. done.
      * intros (Hs & _ & _). lia.
Qed.

End DictFacts.

(** ** Slices *)

Lemma but_last_snoc {A} (l : list A) (x : A) : but_last (l ++ [x]) = l.
Proof.
  unfold but_last. rewrite length_app. cbn [length].
  replace (length l + 1 - 1)%nat with (length l) by lia.
  by rewrite take_app_length.
Qed.

Lemma item_last_snoc {A} (l : list A) (x : A) : item_last (l ++ [x]) = Ok x.
Proof. unfold item_last. by rewrite last_snoc. Qed.

Lemma snoc_of_nonempty {A} (l : list A) : l ≠ [] → ∃ l' x, l = l' ++ [x].
Proof.
  destruct l as [|a l] using rev_ind; [done | eauto].
Qed.

Lemma zip_star_nonempty {A B} (pairs : list (A * B)) :
  pairs ≠ [] → zip_star pairs = [inl pairs.*1; inr pairs.*2].
Proof. destruct pairs; done. Qed.

(** ** Construction *)

Section Construction.
Context {data target out value W : Type}.
Variable cls : oid → methods data target out value W.

Abbreviation step_ok := (λ step : string * oid,
  fit_like cls step.2 = true ∧ transform_like cls step.2 = true).

Lemma check_transforms (ts : list oid) :
  forR ts (λ _ t,
    if negb (hasattr cls t Fit || hasattr cls t FitTransform || hasattr cls t FitSample)
       || negb (hasattr cls t Transform || hasattr cls t Sample)
    then Raise TypeError else Ok tt) tt
  = if decide (Forall (λ t, fit_like cls t = true ∧ transform_like cls t = true) ts)
    then Ok tt else Raise TypeError.
Proof.
  induction ts as [|t ts IH].
  - cbn. by rewrite decide_True by constructor.
  - cbn [forR]. unfold fit_like, transform_like in *.
    destruct (hasattr cls t Fit || hasattr cls t FitTransform || hasattr cls t FitSample) eqn:Hf;
    destruct (hasattr cls t Transform || hasattr cls t Sample) eqn:Ht;
      cbn [bindR negb orb].
    + rewrite IH. destruct (decide (Forall _ ts)) as [Hts|Hts].
      * rewrite decide_True; [done|]. constructor; [by rewrite Hf, Ht | done].
      * rewrite decide_False; [done|]. intros H. inversion H; subst. done.
    + rewrite decide_False; [done|]. intros H. inversion H as [|?? [? ?]]; subst. congruence.
    + rewrite decide_False; [done|]. intros H. inversion H as [|?? [? ?]]; subst. congruence.
    + rewrite decide_False; [done|]. intros H. inversion H as [|?? [? ?]]; subst. congruence.
Qed.

(** Construction on a list with a last step, check by check. *)
Lemma Pipeline_init_snoc (ts : list (string * oid)) name estimator :
  Pipeline_init cls (ts ++ [(name, estimator)])
  = if decide (NoDup (ts ++ [(name, estimator)]).*1) then
      if decide (Forall step_ok ts) then
        if hasattr cls estimator Fit then Ok {| steps := ts ++ [(name, estimator)] |}
        else Raise TypeError
      else Raise TypeError
    else Raise ValueError.
Proof.
  unfold Pipeline_init.
  rewrite zip_star_nonempty by (by destruct ts).
  destruct (decide (size _ ≠ _)) as [Hsz|Hsz].
  - rewrite decide_False; [done|]. intros H. apply Hsz. by apply dict_of_size_NoDup.
  - rewrite decide_True by (apply dict_of_size_NoDup; by apply dec_stable).
    rewrite fmap_app. cbn [fmap list_fmap snd].
    rewrite but_last_snoc, item_last_snoc. cbn [bindR].
    rewrite check_transforms.
    destruct (decide (Forall _ ts.*2)) as [Hts|Hts].
    + rewrite decide_True by (by apply Forall_fmap in Hts).
      cbn [bindR]. by destruct (hasattr cls estimator Fit).
    + rewrite decide_False; [done|]. intros H. apply Hts. by apply Forall_fmap.
Qed.

Lemma Pipeline_init_nil : Pipeline_init cls [] = Raise ValueError.
Proof. reflexivity. Qed.

Lemma Pipeline_init_Ok steps0 p :
  Pipeline_init cls steps0 = Ok p → steps0 ≠ [] ∧ p = {| steps := steps0 |}.
Proof.
  destruct steps0 as [|s steps0] using rev_ind; [done|]. clear IHsteps0.
  destruct s as [name estimator]. rewrite Pipeline_init_snoc.
  repeat case_decide; try done. destruct (hasattr cls estimator Fit); [|done].
  intros [= <-]. split; [by destruct steps0 | done].
Qed.

Lemma steps_valid_snoc ts name estimator :
  steps_valid cls (ts ++ [(name, estimator)])
  ↔ Forall step_ok ts ∧ hasattr cls estimator Fit = true.
Proof.
  split.
  - intros (ts' & name' & est' & Heq & Hts & Hfit).
    apply app_inj_tail in Heq as [-> [= -> ->]]. done.
  - intros [Hts Hfit]. exists ts, name, estimator. done.
Qed.

Lemma steps_valid_nil : ¬ steps_valid cls [].
Proof. intros (ts & name & est & Heq & _). by destruct ts. Qed.

(** C5, amended: for a step list that is not empty and whose names are
    unique, construction succeeds if and only if every step before the
    last has a fit-like capability and a transform-or-sample-like one and
    the last step has [fit]; otherwise it raises [TypeError], and no
    pipeline is made.  The pipeline made holds the given steps. *)
Theorem Pipeline_init_iff_valid steps0 :
  steps0 ≠ [] → NoDup steps0.*1 →
  ((∃ p, Pipeline_init cls steps0 = Ok p) ↔ steps_valid cls steps0)
  ∧ (¬ steps_valid cls steps0 → Pipeline_init cls steps0 = Raise TypeError)
  ∧ (∀ p, Pipeline_init cls steps0 = Ok p → steps p = steps0).
Proof.
  intros Hne Hnd. destruct (snoc_of_nonempty _ Hne) as (ts & [name estimator] & ->).
  rewrite Pipeline_init_snoc, decide_True by done. rewrite steps_valid_snoc.
  destruct (decide (Forall step_ok ts)) as [Hts|Hts];
    [destruct (hasattr cls estimator Fit) eqn:Hfit|]; split_and!.
  - split; [done | eauto].
  - intros H. by destruct H.
  - by intros p [= <-].
  - split; [by intros [p ?] | by intros [_ ?]].
  - done.
  - done.
  - split; [by intros [p ?] | by intros [? _]].
  - done.
  - done.
Qed.

(** C6: when two steps of the list carry the same name, construction
    raises [ValueError], whatever the capabilities of the steps are: the
    names are compared before any capability is probed. *)
Theorem Pipeline_init_duplicate_name steps0 i j name a b :
  i ≠ j → steps0 !! i = Some (name, a) → steps0 !! j = Some (name, b) →
  Pipeline_init cls steps0 = Raise ValueError.
Proof.
  intros Hij Hi Hj.
  assert (steps0 ≠ []) as Hne by (intros ->; done).
  destruct (snoc_of_nonempty _ Hne) as (ts & [name' estimator] & ->).
  rewrite Pipeline_init_snoc. rewrite decide_False; [done|].
  intros Hnd. apply Hij. apply (NoDup_lookup _ i j name Hnd).
  - by rewrite list_lookup_fmap, Hi.
  - by rewrite list_lookup_fmap, Hj.
Qed.

(** C9: construction from the empty list raises (the unpacking of the
    transposed list fails), so a pipeline that was constructed has at
    least one step. *)
Theorem Pipeline_init_nonempty :
  Pipeline_init cls [] = Raise ValueError
  ∧ ∀ steps0 p, Pipeline_init cls steps0 = Ok p → steps p ≠ [] ∧ (1 ≤ length (steps p))%nat.
Proof.
  split; [reflexivity|]. intros steps0 p [Hne ->]%Pipeline_init_Ok. cbn [steps].
  split; [done|]. destruct steps0; [done | cbn; lia].
Qed.

End Construction.

(** C5 as stated fails on the empty list: its names are unique, it is not
    valid, and construction raises [ValueError], not [TypeError]. *)
Lemma Pipeline_init_empty_not_TypeError :
  ¬ (NoDup ([] : list (string * oid)).*1 →
     ((∃ p, Pipeline_init Demo.cls [] = Ok p) ↔ steps_valid Demo.cls [])
     ∧ (¬ steps_valid Demo.cls [] → Pipeline_init Demo.cls [] = Raise TypeError)).
Proof.
  intros H. destruct (H (NoDup_nil_2 (A:=string))) as [_ Hraise].
  specialize (Hraise (steps_valid_nil Demo.cls)). discriminate Hraise.
Qed.

Lemma Pipeline_init_iff_valid_witness :
  steps Demo.pipe ≠ [] ∧ NoDup (steps Demo.pipe).*1
  ∧ ∀ p, Pipeline_init Demo.cls (steps Demo.pipe) = Ok p → steps p = steps Demo.pipe.
Proof.
  assert (steps Demo.pipe ≠ []) as Hne by done.
  assert (NoDup (steps Demo.pipe).*1) as Hnd by (apply (bool_decide_unpack _); vm_compute; exact I).
  split; [exact Hne|]. split; [exact Hnd|].
  exact (proj2 (proj2 (Pipeline_init_iff_valid Demo.cls (steps Demo.pipe) Hne Hnd))).
Defined.

Lemma Pipeline_init_duplicate_name_witness :
  Pipeline_init Demo.cls [("a", 9%nat); ("b", 0%nat); ("a", 5%nat)] = Raise ValueError.
Proof.
  apply (Pipeline_init_duplicate_name Demo.cls _ 0%nat 2%nat "a" 9%nat 5%nat);
    [lia | reflexivity | reflexivity].
Defined.

Lemma Pipeline_init_nonempty_witness :
  Pipeline_init Demo.cls (steps Demo.pipe) = Ok Demo.pipe ∧ steps Demo.pipe ≠ [].
Proof.
  assert (Pipeline_init Demo.cls (steps Demo.pipe) = Ok Demo.pipe) as Hinit
    by (vm_compute; reflexivity).
  split; [exact Hinit|].
  exact (proj1 (proj2 (Pipeline_init_nonempty Demo.cls) _ _ Hinit)).
Defined.

(** ** The monad *)

Section MonadFacts.
Context {W : Type}.

Lemma bind_ret_l {A B} (a : A) (k : A → M W B) w : bind (ret a) k w = k a w.
Proof. reflexivity. Qed.

Lemma bind_raise {A B} e (k : A → M W B) w : bind (raise e) k w = (Raise e, w).
Proof. reflexivity. Qed.

Lemma bind_liftR_Ok {A B} (a : A) (k : A → M W B) w : bind (liftR (Ok a)) k w = k a w.
Proof. reflexivity. Qed.

Lemma bind_liftR_Raise {A B} e (k : A → M W B) w :
  bind (liftR (Raise e)) k w = (Raise e, w).
Proof. reflexivity. Qed.

Lemma bind_assoc {A B C} (c : M W A) (k : A → M W B) (h : B → M W C) w :
  bind (bind c k) h w = bind c (λ a, bind (k a) h) w.
Proof. unfold bind. destruct (c w) as [[a|e] w']; reflexivity. Qed.

Lemma bind_ext {A B} (c c' : M W A) (k k' : A → M W B) w :
  c w = c' w → (∀ a w', k a w' = k' a w') → bind c k w = bind c' k' w.
Proof.
  intros Hc Hk. unfold bind. rewrite Hc. destruct (c' w) as [[a|e] w']; [apply Hk | done].
Qed.

Lemma bind_ret_r {A} (c : M W A) w : bind c ret w = c w.
Proof. unfold bind. by destruct (c w) as [[a|e] w']. Qed.

Lemma forR_app {A S} (l1 l2 : list A) (body : S → A → res S) s :
  forR (l1 ++ l2) body s = bindR (forR l1 body s) (forR l2 body).
Proof.
  revert s. induction l1 as [|a l1 IH]; intros s; [done|].
  cbn [app forR]. destruct (body s a); [apply IH | done].
Qed.

End MonadFacts.

(** ** Splitting the keyword arguments *)

Section Splitting.
Context {value : Type}.
Implicit Types (self : Pipeline) (fit_params seen rest : list (string * value)).
Implicit Types (fps : gmap string (gmap string value)) (pval : value).

Lemma entries_of_snoc name fit_params pname pval step param :
  PyStr.cut pname = Some (step, param) →
  entries_of name (fit_params ++ [(pname, pval)])
  = entries_of name fit_params ++ (if decide (step = name) then [(param, pval)] else []).
Proof.
  intros Hcut. unfold entries_of. rewrite omap_app. f_equal. cbn. rewrite Hcut.
  by destruct (decide (step = name)).
Qed.

Lemma initial_fit_params_steps self name :
  dict_of ((λ '(step, _), (step, (∅ : gmap string value))) <$> steps self) !! name
  = if decide (name ∈ (steps self).*1) then Some ∅ else None.
Proof.
  induction (steps self) as [|[k o] l IH] using rev_ind.
  - cbn. rewrite lookup_empty. rewrite decide_False; [done | apply not_elem_of_nil].
  - rewrite !fmap_app. cbn [fmap list_fmap fst]. rewrite dict_of_snoc.
    destruct (decide (k = name)) as [->|Hne].
    + rewrite lookup_insert_eq. rewrite decide_True; [done|].
      apply elem_of_app. right. by left.
    + rewrite lookup_insert_ne, IH by done.
      destruct (decide (name ∈ l.*1)) as [Hin|Hnin].
      * rewrite decide_True; [done | apply elem_of_app; by left].
      * rewrite decide_False; [done|]. rewrite elem_of_app, list_elem_of_singleton.
        intros [?|?]; [done | congruence].
Qed.

Lemma split_so_far_step self seen fps pname pval :
  split_so_far self seen fps →
  key_of_step self pname →
  ∃ fps', set_fit_param fps (pname, pval) = Ok fps'
          ∧ split_so_far self (seen ++ [(pname, pval)]) fps'.
Proof.
  intros Hinv (step & param & Hcut & Hin).
  unfold set_fit_param, PyStr.split1. rewrite Hcut. cbn [unpack2 bindR].
  unfold getitem. rewrite (Hinv step), decide_True by done. cbn [bindR].
  eexists; split; [done|]. intros name.
  unfold sub_mapping. rewrite (entries_of_snoc _ _ _ _ _ _ Hcut).
  destruct (decide (step = name)) as [->|Hne].
  - rewrite lookup_insert_eq, decide_True by done. by rewrite dict_of_snoc.
  - rewrite lookup_insert_ne, app_nil_r by done. apply Hinv.
Qed.

Lemma split_so_far_loop self fit_params :
  Forall (λ item, key_of_step self item.1) fit_params →
  ∀ seen fps, split_so_far self seen fps →
    ∃ fps', forR fit_params set_fit_param fps = Ok fps'
            ∧ split_so_far self (seen ++ fit_params) fps'.
Proof.
  induction 1 as [|[pname pval] fit_params Hkey _ IH]; intros seen fps Hinv.
  - exists fps. by rewrite app_nil_r.
  - destruct (split_so_far_step _ _ _ pname pval Hinv Hkey) as (fps1 & Hstep & Hinv1).
    destruct (IH _ _ Hinv1) as (fps' & Hloop & Hinv').
    exists fps'. cbn [forR]. rewrite Hstep. cbn [bindR].
    split; [done|]. by rewrite <- app_assoc in Hinv'.
Qed.

(** Well-formed keys of known steps are split into the sub-mappings. *)
Lemma split_fit_params_Ok self fit_params :
  Forall (λ item, key_of_step self item.1) fit_params →
  ∃ fps, split_fit_params self fit_params = Ok fps
         ∧ split_so_far self fit_params fps.
Proof.
  intros Hkeys. unfold split_fit_params.
  apply (split_so_far_loop self fit_params Hkeys []).
  intros name. rewrite initial_fit_params_steps. by destruct (decide _).
Qed.

Lemma set_fit_param_Ok_key self seen fps pname pval fps' :
  split_so_far self seen fps →
  set_fit_param fps (pname, pval) = Ok fps' → key_of_step self pname.
Proof.
  intros Hinv. unfold set_fit_param, PyStr.split1.
  destruct (PyStr.cut pname) as [[step param]|] eqn:Hcut; [|done].
  cbn [unpack2 bindR]. unfold getitem. rewrite (Hinv step).
  destruct (decide (step ∈ (steps self).*1)); [|done]. intros _. by exists step, param.
Qed.

Lemma forR_set_fit_param_keys self fit_params :
  ∀ seen fps fps', split_so_far self seen fps →
    forR fit_params set_fit_param fps = Ok fps' →
    Forall (λ item, key_of_step self item.1) fit_params.
Proof.
  induction fit_params as [|[pname pval] fit_params IH]; intros seen fps fps' Hinv Hloop.
  - constructor.
  - cbn [forR] in Hloop.
    destruct (set_fit_param fps (pname, pval)) as [fps1|e] eqn:Hstep; [|done].
    pose proof (set_fit_param_Ok_key _ _ _ _ _ _ Hinv Hstep) as Hkey.
    destruct (split_so_far_step _ _ _ pname pval Hinv Hkey) as (fps1' & Hstep' & Hinv1).
    rewrite Hstep in Hstep'. injection Hstep' as <-.
    constructor; [done|]. by apply (IH _ _ _ Hinv1 Hloop).
Qed.

(** The splitting phase succeeds on the keys of steps only, and then
    it yields the sub-mappings. *)
Lemma split_fit_params_Ok_inv self fit_params fps :
  split_fit_params self fit_params = Ok fps → split_so_far self fit_params fps.
Proof.
  intros Hsplit.
  assert (Forall (λ item, key_of_step self item.1) fit_params) as Hkeys.
  { unfold split_fit_params in Hsplit.
    apply (forR_set_fit_param_keys self fit_params [] _ _) in Hsplit; [done|].
    intros name. rewrite initial_fit_params_steps. by destruct (decide _). }
  destruct (split_fit_params_Ok self fit_params Hkeys) as (fps' & Hsplit' & Hinv).
  rewrite Hsplit in Hsplit'. by injection Hsplit' as <-.
Qed.

(** The first key that is no key of a step decides the exception. *)
Lemma split_fit_params_ValueError self seen pname pval rest :
  Forall (λ item, key_of_step self item.1) seen →
  PyStr.cut pname = None →
  split_fit_params self (seen ++ (pname, pval) :: rest) = Raise ValueError.
Proof.
  intros Hkeys Hcut.
  destruct (split_fit_params_Ok self seen Hkeys) as (fps & Hsplit & Hinv).
  unfold split_fit_params in *. rewrite forR_app, Hsplit. cbn [bindR forR].
  unfold set_fit_param, PyStr.split1. rewrite Hcut. done.
Qed.

Lemma split_fit_params_KeyError self seen pname pval rest step param :
  Forall (λ item, key_of_step self item.1) seen →
  PyStr.cut pname = Some (step, param) →
  step ∉ (steps self).*1 →
  split_fit_params self (seen ++ (pname, pval) :: rest) = Raise KeyError.
Proof.
  intros Hkeys Hcut Hnin.
  destruct (split_fit_params_Ok self seen Hkeys) as (fps & Hsplit & Hinv).
  unfold split_fit_params in *. rewrite forR_app, Hsplit. cbn [bindR forR].
  unfold set_fit_param, PyStr.split1. rewrite Hcut. cbn [unpack2 bindR].
  unfold getitem. rewrite (Hinv step), decide_False by done. done.
Qed.

End Splitting.

(** ** Fitting *)

Section Fitting.
Context {data target out value W : Type}.
Variable cls : oid → methods data target out value W.
Implicit Types (self : Pipeline) (fit_params : list (string * value)).
Implicit Types (X : data) (y : target) (w : world W).

Lemma final_estimator_snoc self ts name final :
  steps self = ts ++ [(name, final)] → _final_estimator self = Ok final.
Proof. intros Hs. unfold _final_estimator. by rewrite Hs, item_last_snoc. Qed.

Lemma pre_transform_split_error self X y fit_params e w :
  split_fit_params self fit_params = Raise e →
  _pre_transform cls self X y fit_params w = (Raise e, w).
Proof. intros H. unfold _pre_transform. by rewrite H. Qed.

Lemma if_delegate_has_method_Ok self m final w :
  _final_estimator self = Ok final → hasattr cls final m = true →
  if_delegate_has_method cls self m w = (Ok tt, w).
Proof.
  intros Hfinal Hcap. unfold if_delegate_has_method, bind, liftR.
  by rewrite Hfinal, Hcap.
Qed.

Lemma if_delegate_has_method_missing self m final w :
  _final_estimator self = Ok final → hasattr cls final m = false →
  if_delegate_has_method cls self m w = (Raise AttributeError, w).
Proof.
  intros Hfinal Hcap. unfold if_delegate_has_method, bind, liftR.
  by rewrite Hfinal, Hcap.
Qed.

(** A failure of the splitting phase leaves every fitting operation before
    any call on a step. *)
Lemma fitting_split_error self X y fit_params e w :
  split_fit_params self fit_params = Raise e →
  fit cls self X y fit_params w = (Raise e, w)
  ∧ fit_transform cls self X y fit_params w = (Raise e, w)
  ∧ (∀ final, _final_estimator self = Ok final → hasattr cls final FitSample = true →
       fit_sample cls self X y fit_params w = (Raise e, w))
  ∧ (∀ final, _final_estimator self = Ok final → hasattr cls final FitPredict = true →
       fit_predict cls self X y fit_params w = (Raise e, w)).
Proof.
  intros H. split_and!.
  - unfold fit, bind. by rewrite (pre_transform_split_error _ _ _ _ _ _ H).
  - unfold fit_transform, bind. by rewrite (pre_transform_split_error _ _ _ _ _ _ H).
  - intros final Hfinal Hcap. unfold fit_sample, bind.
    rewrite (if_delegate_has_method_Ok _ _ _ _ Hfinal Hcap).
    by rewrite (pre_transform_split_error _ _ _ _ _ _ H).
  - intros final Hfinal Hcap. unfold fit_predict, bind.
    rewrite (if_delegate_has_method_Ok _ _ _ _ Hfinal Hcap).
    by rewrite (pre_transform_split_error _ _ _ _ _ _ H).
Qed.

Lemma bind_ret_pair {A B} (c : M W (A * B)) w :
  bind c (λ '(a, b), ret (a, b)) w = c w.
Proof. unfold bind. by destruct (c w) as [[[a b]|e] w']. Qed.

(** The loop of [_pre_transform] is the described chain of steps. *)
Lemma pre_loop_described (fps : gmap string (gmap string value)) fit_params ts :
  (∀ name t, (name, t) ∈ ts → fps !! name = Some (sub_mapping name fit_params)) →
  ∀ Xy w,
    for_ ts (λ '(Xt, yt) '(name, transform),
      if hasattr cls transform FitTransform then
        let* f := getattr_ (m_fit_transform (cls transform)) in
        let* kw := liftR (getitem fps name) in
        let* Xt := invoke transform FitTransform (f Xt yt kw) in
        ret (Xt, yt)
      else if hasattr cls transform FitSample then
        let* f := getattr_ (m_fit_sample (cls transform)) in
        let* kw := liftR (getitem fps name) in
        let* (Xt, yt) := invoke transform FitSample (f Xt yt kw) in
        ret (Xt, yt)
      else
        let* f := getattr_ (m_fit (cls transform)) in
        let* kw := liftR (getitem fps name) in
        let* fitted := invoke transform Fit (f Xt yt kw) in
        let* g := getattr_ (m_transform (cls fitted)) in
        let* Xt := invoke fitted Transform (g Xt) in
        ret (Xt, yt)) Xy w
    = pre_steps_described cls fit_params ts Xy w.
Proof.
  induction ts as [|[name t] ts IH]; intros Hfps [Xt yt] w; [done|].
  cbn [for_ pre_steps_described]. apply bind_ext.
  - unfold pre_step_described, hasattr, getitem.
    rewrite (Hfps name t) by left.
    destruct (m_fit_transform (cls t)) as [ft|]; [done|].
    destruct (m_fit_sample (cls t)) as [fs|]; cbn [present].
    + cbn [getattr_]. rewrite bind_ret_l, bind_liftR_Ok. apply bind_ret_pair.
    + destruct (m_fit (cls t)) as [f|]; done.
  - intros Xy' w'. apply IH. intros name' t' Hin. apply (Hfps name' t'). by right.
Qed.

Lemma invoke_inv {A} (o : oid) (m : meth) (body : W → res A * W) w r w' :
  invoke o m body w = (r, w') →
  body (store w) = (r, store w') ∧ trace w' = trace w ++ [Call o m].
Proof.
  unfold invoke. destruct (body (store w)) as [r0 s]. by intros [= <- <-].
Qed.

Lemma pre_step_described_trace kw t Xy w r w' :
  pre_step_described cls kw t Xy w = (Ok r, w') →
  ∃ evs, trace w' = trace w ++ evs ∧ pre_step_calls cls t evs.
Proof.
  unfold pre_step_described, pre_step_calls, hasattr.
  destruct (m_fit_transform (cls t)) as [ft|]; cbn [present].
  - unfold bind. destruct (invoke _ _ _ w) as [[Xt|e] w1] eqn:Hinv; [|done].
    intros [= <- <-]. apply invoke_inv in Hinv as [_ Htr]. eauto.
  - destruct (m_fit_sample (cls t)) as [fs|]; cbn [present].
    + intros Hinv. apply invoke_inv in Hinv as [_ Htr]. eauto.
    + destruct (m_fit (cls t)) as [f|]; [|done]. cbn [getattr_]. rewrite bind_ret_l.
      unfold bind at 1. destruct (invoke _ _ _ w) as [[fitted|e] w1] eqn:Hinv1; [|done].
      destruct (m_transform (cls fitted)) as [g|]; [|done]. cbn [getattr_]. rewrite bind_ret_l.
      unfold bind. destruct (invoke _ _ _ w1) as [[Xt|e] w2] eqn:Hinv2; [|done].
      intros [= <- <-].
      apply invoke_inv in Hinv1 as [_ Htr1]. apply invoke_inv in Hinv2 as [_ Htr2].
      exists [Call t Fit; Call fitted Transform]. split; [|eauto].
      rewrite Htr2, Htr1, <- app_assoc. done.
Qed.

Lemma pre_steps_described_trace fit_params ts :
  ∀ Xy w r w',
    pre_steps_described cls fit_params ts Xy w = (Ok r, w') →
    ∃ evss, trace w' = trace w ++ concat evss
            ∧ Forall2 (λ step evs, pre_step_calls cls step.2 evs) ts evss.
Proof.
  induction ts as [|[name t] ts IH]; intros Xy w r w'.
  - intros [= <- <-]. exists []. cbn. by rewrite app_nil_r.
  - cbn [pre_steps_described]. unfold bind at 1.
    destruct (pre_step_described _ _ _ _ w) as [[Xy1|e] w1] eqn:Hstep; [|done].
    intros Hrest.
    apply pre_step_described_trace in Hstep as (evs & Htr1 & Hcalls).
    apply IH in Hrest as (evss & Htr & Hall).
    exists (evs :: evss). split; [|by constructor].
    cbn [concat]. by rewrite Htr, Htr1, <- app_assoc.
Qed.

(** C4: on a pipeline with a last step, the pre-transform phase of every
    fitting operation is the parameter splitting followed by the steps
    before the last, one after the other: [fit_transform] when the step
    has it, else [fit_sample] when the step has it (data and labels are
    both replaced), else [fit] and then [transform] (data only); it gives
    back the data, the labels and the parameter sub-mapping of the last
    step.  The calls made are those of the steps, in the order of the
    steps. *)
Theorem pre_transform_as_described self ts name final X y fit_params w :
  steps self = ts ++ [(name, final)] →
  _pre_transform cls self X y fit_params w
  = (let* _ := liftR (split_fit_params self fit_params) in
     let* Xy := pre_steps_described cls fit_params ts (X, y) in
     ret (Xy.1, Xy.2, sub_mapping name fit_params)) w
  ∧ (∀ r w', _pre_transform cls self X y fit_params w = (Ok r, w') →
       ∃ evss, trace w' = trace w ++ concat evss
               ∧ Forall2 (λ step evs, pre_step_calls cls step.2 evs) ts evss).
Proof.
  intros Hs.
  assert (_pre_transform cls self X y fit_params w
          = (let* _ := liftR (split_fit_params self fit_params) in
             let* Xy := pre_steps_described cls fit_params ts (X, y) in
             ret (Xy.1, Xy.2, sub_mapping name fit_params)) w) as Heq.
  { unfold _pre_transform.
    destruct (split_fit_params self fit_params) as [fps|e] eqn:Hsplit; [|done].
    apply split_fit_params_Ok_inv in Hsplit.
    rewrite !bind_liftR_Ok, Hs, but_last_snoc, item_last_snoc.
    apply bind_ext.
    - apply pre_loop_described. intros name' t Hin.
      rewrite (Hsplit name'), decide_True; [done|].
      rewrite Hs, fmap_app. apply elem_of_app. left.
      apply list_elem_of_fmap. by exists (name', t).
    - intros [Xt yt] w1. rewrite bind_liftR_Ok. unfold getitem.
      rewrite (Hsplit name), decide_True; [done|].
      rewrite Hs, fmap_app. apply elem_of_app. right. by left. }
  split; [exact Heq|]. intros r w' Hrun. rewrite Heq in Hrun.
  destruct (split_fit_params self fit_params) as [fps|e]; [|done].
  rewrite bind_liftR_Ok in Hrun. unfold bind in Hrun.
  destruct (pre_steps_described _ _ _ _ w) as [[Xy|e] w1] eqn:Hsteps; [|done].
  injection Hrun as _ <-. by apply pre_steps_described_trace in Hsteps.
Qed.

(** C7, amended: when the first key, in the iteration order of the
    keyword arguments, that is not [step__param] for a step of the
    pipeline is a key without the separator, the splitting phase raises
    [ValueError]; the fitting operations let it through, and no step has
    been called. *)
Theorem key_without_separator_raises_ValueError self X y seen pname pval rest w :
  Forall (λ item, key_of_step self item.1) seen →
  PyStr.cut pname = None →
  _pre_transform cls self X y (seen ++ (pname, pval) :: rest) w = (Raise ValueError, w)
  ∧ fit cls self X y (seen ++ (pname, pval) :: rest) w = (Raise ValueError, w)
  ∧ fit_transform cls self X y (seen ++ (pname, pval) :: rest) w = (Raise ValueError, w)
  ∧ (∀ final, _final_estimator self = Ok final → hasattr cls final FitSample = true →
       fit_sample cls self X y (seen ++ (pname, pval) :: rest) w = (Raise ValueError, w))
  ∧ (∀ final, _final_estimator self = Ok final → hasattr cls final FitPredict = true →
       fit_predict cls self X y (seen ++ (pname, pval) :: rest) w = (Raise ValueError, w)).
Proof.
  intros Hseen Hcut.
  pose proof (split_fit_params_ValueError self seen pname pval rest Hseen Hcut) as Hsplit.
  split; [by apply pre_transform_split_error | by apply fitting_split_error].
Qed.

(** C10, amended: when the first key, in the iteration order of the
    keyword arguments, that is not [step__param] for a step of the
    pipeline has the separator and a prefix that names no step, the
    splitting phase raises [KeyError] before any step is fitted: the store
    of the steps and the trace of calls are as before the call. *)
Theorem key_of_unknown_step_raises_KeyError self X y seen pname pval rest step param w :
  Forall (λ item, key_of_step self item.1) seen →
  PyStr.cut pname = Some (step, param) →
  step ∉ (steps self).*1 →
  _pre_transform cls self X y (seen ++ (pname, pval) :: rest) w = (Raise KeyError, w)
  ∧ fit cls self X y (seen ++ (pname, pval) :: rest) w = (Raise KeyError, w)
  ∧ fit_transform cls self X y (seen ++ (pname, pval) :: rest) w = (Raise KeyError, w)
  ∧ (∀ final, _final_estimator self = Ok final → hasattr cls final FitSample = true →
       fit_sample cls self X y (seen ++ (pname, pval) :: rest) w = (Raise KeyError, w))
  ∧ (∀ final, _final_estimator self = Ok final → hasattr cls final FitPredict = true →
       fit_predict cls self X y (seen ++ (pname, pval) :: rest) w = (Raise KeyError, w)).
Proof.
  intros Hseen Hcut Hstep.
  pose proof (split_fit_params_KeyError self seen pname pval rest step param
                Hseen Hcut Hstep) as Hsplit.
  split; [by apply pre_transform_split_error | by apply fitting_split_error].
Qed.

End Fitting.

Lemma pre_transform_as_described_witness :
  steps Demo.pipe = [("scaler", 0%nat); ("sampler", 1%nat); ("plain", 4%nat)] ++ [("clf", 2%nat)]
  ∧ ∃ evss,
      trace (_pre_transform Demo.cls Demo.pipe [3; 4] [0; 1]
               [("clf__C", 5); ("scaler__shift", 1)] Demo.w0).2
      = trace Demo.w0 ++ concat evss
      ∧ Forall2 (λ step evs, pre_step_calls Demo.cls step.2 evs)
                [("scaler", 0%nat); ("sampler", 1%nat); ("plain", 4%nat)] evss.
Proof.
  split; [reflexivity|].
  destruct (_pre_transform Demo.cls Demo.pipe [3; 4] [0; 1]
              [("clf__C", 5); ("scaler__shift", 1)] Demo.w0) as [r w'] eqn:Hrun.
  assert (∃ v, r = Ok v) as [v ->].
  { revert Hrun. vm_compute. intros [= <- _]. eexists. reflexivity. }
  exact (proj2 (pre_transform_as_described Demo.cls Demo.pipe
                  [("scaler", 0%nat); ("sampler", 1%nat); ("plain", 4%nat)] "clf" 2%nat
                  [3; 4] [0; 1] [("clf__C", 5); ("scaler__shift", 1)] Demo.w0 eq_refl)
           v w' Hrun).
Defined.

Lemma demo_key_clf_C : Forall (λ item : string * Z, key_of_step Demo.pipe item.1) [("clf__C", 5)].
Proof.
  repeat constructor. exists "clf", "C". split; [reflexivity|].
  apply (bool_decide_unpack _). vm_compute. exact I.
Qed.

Lemma key_without_separator_raises_ValueError_witness :
  PyStr.cut "gamma" = None
  ∧ fit Demo.cls Demo.pipe [3; 4] [0; 1] ([("clf__C", 5)] ++ ("gamma", 1) :: [("svm__C", 2)])
        Demo.w0
    = (Raise ValueError, Demo.w0).
Proof.
  split; [reflexivity|].
  exact (proj1 (proj2 (key_without_separator_raises_ValueError Demo.cls Demo.pipe
                         [3; 4] [0; 1] [("clf__C", 5)] "gamma" 1 [("svm__C", 2)] Demo.w0
                         demo_key_clf_C eq_refl))).
Defined.

(** C7 as stated fails: the keyword arguments hold the key [gamma]
    without separator, but the key [svm__C] of an unknown step comes first
    in the iteration order and the phase raises [KeyError]. *)
Lemma key_without_separator_after_unknown_step :
  PyStr.cut "gamma" = None
  ∧ _pre_transform Demo.cls Demo.pipe [3; 4] [0; 1] [("svm__C", 5); ("gamma", 1)] Demo.w0
    = (Raise KeyError, Demo.w0)
  ∧ fit Demo.cls Demo.pipe [3; 4] [0; 1] [("svm__C", 5); ("gamma", 1)] Demo.w0
    ≠ (Raise ValueError, Demo.w0).
Proof. split_and!; [reflexivity | reflexivity | vm_compute; discriminate]. Qed.

Lemma demo_not_step_svm : "svm" ∉ (steps Demo.pipe).*1.
Proof. apply (bool_decide_unpack _). vm_compute. exact I. Qed.

Lemma key_of_unknown_step_raises_KeyError_witness :
  PyStr.cut "svm__C" = Some ("svm", "C")
  ∧ fit Demo.cls Demo.pipe [3; 4] [0; 1] ([("clf__C", 5)] ++ ("svm__C", 2) :: [("gamma", 1)])
        Demo.w0
    = (Raise KeyError, Demo.w0).
Proof.
  split; [reflexivity|].
  exact (proj1 (proj2 (key_of_unknown_step_raises_KeyError Demo.cls Demo.pipe
                         [3; 4] [0; 1] [("clf__C", 5)] "svm__C" 2 [("gamma", 1)]
                         "svm" "C" Demo.w0 demo_key_clf_C eq_refl demo_not_step_svm))).
Defined.

(** C10 as stated fails: the keyword arguments hold the key [svm__C] of
    an unknown step, but the key [C] without separator comes first in the
    iteration order and the phase raises [ValueError]. *)
Lemma key_of_unknown_step_after_malformed :
  PyStr.cut "svm__C" = Some ("svm", "C")
  ∧ ("svm" ∉ (steps Demo.pipe).*1)
  ∧ _pre_transform Demo.cls Demo.pipe [3; 4] [0; 1] [("C", 5); ("svm__C", 1)] Demo.w0
    = (Raise ValueError, Demo.w0)
  ∧ fit Demo.cls Demo.pipe [3; 4] [0; 1] [("C", 5); ("svm__C", 1)] Demo.w0
    ≠ (Raise KeyError, Demo.w0).
Proof.
  split_and!; [reflexivity | exact demo_not_step_svm | reflexivity | vm_compute; discriminate].
Qed.

(** ** Inference *)

Section Inference.
Context {data target out value W : Type}.
Variable cls : oid → methods data target out value W.
Variable shape : data → option string.
Implicit Types (self : Pipeline) (X : data) (y : target) (w : world W).

Lemma through_app ts1 ts2 X w :
  through cls (ts1 ++ ts2) X w = bind (through cls ts1 X) (through cls ts2) w.
Proof.
  revert X w. induction ts1 as [|[name t] ts1 IH]; intros X w; [done|].
  cbn [app through]. rewrite !bind_assoc. apply bind_ext; [done|].
  intros g w1. rewrite bind_assoc. apply bind_ext; [done|]. intros Xt w2. apply IH.
Qed.

(** The loop that skips the resamplers. *)
Lemma skip_loop_through ts X w :
  for_ ts (λ Xt '(name, transform),
    if hasattr cls transform FitSample then ret Xt
    else
      let* g := getattr_ (m_transform (cls transform)) in
      invoke transform Transform (g Xt)) X w
  = through cls (filter (λ step, is_resampler cls step = false) ts) X w.
Proof.
  revert X w. induction ts as [|[name t] ts IH]; intros X w; [done|].
  cbn [for_]. rewrite filter_cons.
  destruct (decide (is_resampler cls (name, t) = false)) as [Hres|Hres];
    unfold is_resampler in Hres; cbn [snd] in Hres.
  - rewrite Hres. cbn [through]. rewrite bind_assoc.
    apply bind_ext; [done|]. intros g w1. apply bind_ext; [done|]. apply IH.
  - apply not_false_is_true in Hres. rewrite Hres, bind_ret_l. apply IH.
Qed.

Lemma calls_app evs1 evs2 : calls (evs1 ++ evs2) = calls evs1 ++ calls evs2.
Proof. unfold calls. apply omap_app. Qed.

Lemma same_view_refl w : same_view w w.
Proof. done. Qed.

Lemma observe_eq {A} (r1 r2 : res A * world W) :
  observe r1 = observe r2 ↔ r1.1 = r2.1 ∧ same_view r1.2 r2.2.
Proof.
  unfold observe, same_view. split; [intros [= ? ? ?] | intros (-> & -> & ->)]; done.
Qed.

Lemma sim_bind {A B} (c1 c2 : M W A) (k1 k2 : A → M W B) w1 w2 :
  observe (c1 w1) = observe (c2 w2) →
  (∀ a w1' w2', same_view w1' w2' → observe (k1 a w1') = observe (k2 a w2')) →
  observe (bind c1 k1 w1) = observe (bind c2 k2 w2).
Proof.
  intros [Hr Hw]%observe_eq Hk. unfold bind.
  destruct (c1 w1) as [r1 w1'], (c2 w2) as [r2 w2']. cbn in Hr, Hw. subst r2.
  destruct r1 as [a|e]; [by apply Hk|]. by apply observe_eq.
Qed.

Lemma sim_invoke {A} o m (body : W → res A * W) w1 w2 :
  same_view w1 w2 → observe (invoke o m body w1) = observe (invoke o m body w2).
Proof.
  intros [Hs Hc]. unfold invoke. rewrite Hs. destruct (body (store w2)) as [r s].
  apply observe_eq. split; [done|]. split; [done|]. cbn. by rewrite !calls_app, Hc.
Qed.

Lemma sim_pure {A} (c : M W A) w1 w2 :
  (∀ w, c w = ((c w1).1, w)) → same_view w1 w2 → observe (c w1) = observe (c w2).
Proof.
  intros Hc Hw. rewrite (Hc w1), (Hc w2). by apply observe_eq.
Qed.

Lemma print_shape_view X w :
  is_Some (shape X) →
  ∃ w', print_shape shape X w = (Ok tt, w') ∧ same_view w' w.
Proof.
  intros [s Hs]. unfold print_shape. rewrite Hs. cbn [getattr_]. rewrite bind_ret_l.
  eexists; split; [done|]. split; [done|]. cbn. rewrite calls_app. cbn. apply app_nil_r.
Qed.

(** The loop of [score]: up to the printed lines, the loop that skips the
    resamplers. *)
Lemma score_loop_through ts :
  (∀ d, is_Some (shape d)) →
  ∀ X w1 w2, same_view w1 w2 →
    observe (for_ ts (λ Xt '(name, transform),
      if hasattr cls transform FitSample then ret Xt
      else
        let* _ := print_shape shape Xt in
        let* g := getattr_ (m_transform (cls transform)) in
        let* Xt := invoke transform Transform (g Xt) in
        let* _ := print_shape shape Xt in
        ret Xt) X w1)
    = observe (through cls (filter (λ step, is_resampler cls step = false) ts) X w2).
Proof.
  intros Hshape. induction ts as [|[name t] ts IH]; intros X w1 w2 Hw.
  - by apply observe_eq.
  - cbn [for_]. rewrite filter_cons.
    destruct (decide (is_resampler cls (name, t) = false)) as [Hres|Hres];
      unfold is_resampler in Hres; cbn [snd] in Hres; cycle 1.
    + apply not_false_is_true in Hres. rewrite Hres, bind_ret_l. by apply IH.
    + rewrite Hres. cbn [through].
      destruct (print_shape_view X w1 (Hshape X)) as (w1' & Hp & Hw1).
      rewrite bind_assoc. unfold bind at 1. rewrite Hp.
      assert (same_view w1' w2) as Hw' by (destruct Hw1, Hw; split; congruence).
      rewrite bind_assoc.
      destruct (m_transform (cls t)) as [g|]; [|by apply observe_eq].
      cbn [getattr_]. rewrite !bind_ret_l, bind_assoc.
      apply sim_bind; [by apply sim_invoke|].
      intros Xt v1 v2 Hv.
      destruct (print_shape_view Xt v1 (Hshape Xt)) as (v1' & Hp' & Hv1).
      rewrite bind_assoc. unfold bind at 1. rewrite Hp'. rewrite bind_ret_l.
      apply IH. destruct Hv1, Hv; split; congruence.
Qed.

Lemma sim_terminal op final X y w1 w2 :
  same_view w1 w2 →
  observe (terminal cls op final X y w1) = observe (terminal cls op final X y w2).
Proof.
  intros Hw. destruct op; cbn [terminal].
  - destruct (m_predict (cls final)); [|by apply observe_eq]. cbn [getattr_].
    rewrite !bind_ret_l. apply sim_bind; [by apply sim_invoke|].
    intros; by apply observe_eq.
  - destruct (m_predict_proba (cls final)); [|by apply observe_eq]. cbn [getattr_].
    rewrite !bind_ret_l. apply sim_bind; [by apply sim_invoke|].
    intros; by apply observe_eq.
  - destruct (m_decision_function (cls final)); [|by apply observe_eq]. cbn [getattr_].
    rewrite !bind_ret_l. apply sim_bind; [by apply sim_invoke|].
    intros; by apply observe_eq.
  - destruct (m_predict_log_proba (cls final)); [|by apply observe_eq]. cbn [getattr_].
    rewrite !bind_ret_l. apply sim_bind; [by apply sim_invoke|].
    intros; by apply observe_eq.
  - destruct (m_transform (cls final)); [|by apply observe_eq]. cbn [getattr_].
    rewrite !bind_ret_l. apply sim_bind; [by apply sim_invoke|].
    intros; by apply observe_eq.
  - destruct (m_score (cls final)); [|by apply observe_eq]. cbn [getattr_].
    rewrite !bind_ret_l. apply sim_bind; [by apply sim_invoke|].
    intros; by apply observe_eq.
Qed.

(** The operations without [print] are the described ones on the nose. *)
Lemma run_inference_exact op self X y w :
  op ≠ OpScore →
  run_inference cls shape op self X y w = inference_as_coded cls op self X y w.
Proof.
  intros Hop. destruct op; [| | | | |done]; cbn [run_inference inference_as_coded].
  - unfold predict, inference_described. rewrite bind_assoc.
    apply bind_ext; [done|]. intros _ w1. rewrite bind_assoc.
    apply bind_ext; [apply skip_loop_through|]. intros Xt w2. rewrite bind_assoc.
    apply bind_ext; [done|]. intros final w3. cbn [terminal]. by rewrite bind_assoc.
  - unfold predict_proba, inference_described. rewrite bind_assoc.
    apply bind_ext; [done|]. intros _ w1. rewrite bind_assoc.
    apply bind_ext; [apply skip_loop_through|]. intros Xt w2. rewrite bind_assoc.
    apply bind_ext; [done|]. intros final w3. cbn [terminal]. by rewrite bind_assoc.
  - unfold decision_function, inference_described. rewrite bind_assoc.
    apply bind_ext; [done|]. intros _ w1. rewrite bind_assoc.
    apply bind_ext; [apply skip_loop_through|]. intros Xt w2. rewrite bind_assoc.
    apply bind_ext; [done|]. intros final w3. cbn [terminal]. by rewrite bind_assoc.
  - unfold predict_log_proba, inference_described. rewrite bind_assoc.
    apply bind_ext; [done|]. intros _ w1. rewrite bind_assoc.
    apply bind_ext; [apply skip_loop_through|]. intros Xt w2. rewrite bind_assoc.
    apply bind_ext; [done|]. intros final w3. cbn [terminal]. by rewrite bind_assoc.
  - unfold transform, transform_all_steps. rewrite bind_assoc.
    apply bind_ext; [done|]. intros _ w1. rewrite bind_assoc.
    apply bind_ext; [apply skip_loop_through|]. intros Xt w2. done.
Qed.

(** [score] is the described operation up to what it prints. *)
Lemma run_inference_score self X y w :
  (∀ d, is_Some (shape d)) →
  observe (run_inference cls shape OpScore self X y w)
  = observe (inference_described cls OpScore self X y w).
Proof.
  intros Hshape. cbn [run_inference]. unfold score, inference_described.
  rewrite bind_assoc. apply sim_bind; [done|]. intros _ w1 w2 Hw.
  rewrite bind_assoc. apply sim_bind; [by apply score_loop_through|].
  intros Xt v1 v2 Hv. rewrite bind_assoc.
  apply sim_bind; [by apply observe_eq|]. intros final u1 u2 Hu.
  cbn [terminal]. rewrite bind_assoc.
  destruct (m_score (cls final)) as [f|]; [|by apply observe_eq].
  cbn [getattr_]. rewrite !bind_ret_l. apply sim_bind; [by apply sim_invoke|].
  intros; by apply observe_eq.
Qed.

(** When the last step is no resampler, [transform] is the described
    operation. *)
Lemma transform_described_when_final_transforms self ts name final X y w :
  steps self = ts ++ [(name, final)] →
  hasattr cls final FitSample = false →
  transform_all_steps cls self X w = inference_described cls OpTransform self X y w.
Proof.
  intros Hs Hres. unfold transform_all_steps, inference_described.
  apply bind_ext; [done|]. intros _ w1.
  rewrite Hs, but_last_snoc, filter_app, filter_cons, filter_nil.
  rewrite (decide_True (P := is_resampler cls (name, final) = false)) by done.
  rewrite (bind_ext _ _ _ _ w1 (through_app _ _ _ w1) (λ _ _, eq_refl)).
  rewrite bind_assoc. apply bind_ext; [done|]. intros Xt w2.
  unfold _final_estimator. rewrite Hs, item_last_snoc. cbn [bindR].
  rewrite bind_liftR_Ok. cbn [through terminal]. rewrite bind_assoc.
  apply bind_ext; [done|]. intros g w3. rewrite bind_assoc.
  apply bind_ext; [done|]. intros r w4. done.
Qed.

(** Inference as the code has it.  [predict], [predict_proba],
    [decision_function] and [predict_log_proba] send the data through the
    [transform] of every step before the last that has no [fit_sample], in
    order, and then call the matching method of the last step, which alone
    gets that call.  [score] does the same as far as the outcome, the
    store and the calls on the steps go, when the data at hand has a
    shape.  [transform] applies the skip rule to all the steps, the last
    one included, and makes no other call: it is the described operation
    when the last step has no [fit_sample]. *)
Theorem inference_as_the_code_has_it op self X y w :
  (op = OpScore → ∀ d, is_Some (shape d)) →
  observe (run_inference cls shape op self X y w)
  = observe (inference_as_coded cls op self X y w)
  ∧ (op ≠ OpScore →
       run_inference cls shape op self X y w = inference_as_coded cls op self X y w)
  ∧ (∀ ts name final,
       steps self = ts ++ [(name, final)] → hasattr cls final FitSample = false →
       inference_as_coded cls op self X y w = inference_described cls op self X y w).
Proof.
  intros Hshape. split_and!.
  - destruct op; try (by rewrite run_inference_exact).
    apply run_inference_score. by apply Hshape.
  - apply run_inference_exact.
  - intros ts name final Hs Hres. destruct op; try done.
    by apply (transform_described_when_final_transforms _ ts name final).
Qed.

End Inference.

Lemma inference_as_the_code_has_it_witness :
  (∀ d, is_Some (Demo.shape d))
  ∧ observe (run_inference Demo.cls Demo.shape OpScore Demo.pipe [3; 4] [0; 1] Demo.w0)
    = observe (inference_described Demo.cls OpScore Demo.pipe [3; 4] [0; 1] Demo.w0).
Proof.
  assert (∀ d, is_Some (Demo.shape d)) as Hshape by (intros d; eexists; reflexivity).
  split; [exact Hshape|].
  exact (proj1 (inference_as_the_code_has_it Demo.cls Demo.shape OpScore Demo.pipe
                  [3; 4] [0; 1] Demo.w0 (λ _, Hshape))).
Defined.

Example score_demo :
  observe (score Demo.cls Demo.shape Demo.pipe [3; 4] [0; 1] Demo.w0)
  = (Ok 1, ∅, [(0%nat, Transform); (4%nat, Transform); (2%nat, Score)]).
Proof. reflexivity. Qed.

(** C3 (the code departs from its docstring): on a pipeline whose only
    step resamples and transforms, [transform] gives the data back
    untouched and calls nothing, where its docstring and the described
    operation have the [transform] of the final estimator applied, as the
    other inference operations do with their method. *)
Lemma transform_skips_final_resampler :
  observe (run_inference Demo.cls Demo.shape OpTransform Demo.mixed_only [3; 4] [] Demo.w0)
  = (Ok (inl [3; 4]), ∅, [])
  ∧ observe (run_inference Demo.cls Demo.shape OpTransform Demo.mixed_only [3; 4] []
               Demo.w0)
    ≠ observe (inference_described Demo.cls OpTransform Demo.mixed_only [3; 4] [] Demo.w0).
Proof. split; [reflexivity | vm_compute; discriminate]. Qed.

(** ** Delegation to the final estimator *)

Section Delegation.
Context {data target out value W : Type}.
Variable cls : oid → methods data target out value W.
Variable shape : data → option string.
Variable ndim : data → option Z.
Variable add_axis : data → data.
Implicit Types (self : Pipeline) (X : data) (y : target) (w : world W).
Implicit Types (fit_params : list (string * value)).

Lemma call_method_missing m self final X y fit_params w :
  delegated m = true →
  _final_estimator self = Ok final →
  hasattr cls final m = false →
  call_method cls shape ndim add_axis m self X y fit_params w = (Raise AttributeError, w).
Proof.
  intros Hm Hfinal Hcap.
  pose proof (if_delegate_has_method_missing cls self m final w Hfinal Hcap) as Hcheck.
  destruct m; try done; cbn [call_method];
    unfold fit_sample, transform, sample, predict, fit_predict, predict_proba,
      decision_function, predict_log_proba, inverse_transform, score;
    rewrite bind_assoc; unfold bind at 1; by rewrite Hcheck.
Qed.

(** The name [transform] is unbound where [inverse_transform] reads it. *)
Lemma load_name_transform step :
  load_name (inverse_transform_locals step) "transform" = Raise NameError.
Proof. reflexivity. Qed.

(** [inverse_transform] raises [NameError] in the first round of its loop,
    on every pipeline whose last step can be inverted. *)
Lemma inverse_transform_NameError self ts name final X nd w :
  steps self = ts ++ [(name, final)] →
  hasattr cls final InverseTransform = true →
  ndim X = Some nd →
  ∃ w', inverse_transform cls ndim add_axis self X w = (Raise NameError, w')
        ∧ same_view w' w.
Proof.
  intros Hs Hcap Hnd. unfold inverse_transform.
  unfold bind at 1.
  rewrite (if_delegate_has_method_Ok cls self _ final w (final_estimator_snoc _ _ _ _ Hs) Hcap).
  rewrite Hnd. cbn [getattr_]. rewrite bind_ret_l.
  rewrite Hs, reverse_app. cbn [reverse rev_append app for_].
  destruct (decide (nd = 1)) as [_|_].
  - eexists. split; [reflexivity|]. split; [done|]. cbn. unfold calls.
    rewrite omap_app. cbn. apply app_nil_r.
  - eexists. split; [reflexivity|]. done.
Qed.

(** C8: when the last step lacks the capability of a delegated operation
    ([fit_sample], [sample], [predict], [fit_predict], [predict_proba],
    [decision_function], [predict_log_proba], [transform],
    [inverse_transform], [score]), construction accepts the pipeline all
    the same, and calling the operation raises [AttributeError] without
    any call on a step. *)
Theorem missing_capability_raises_at_call m ts name final X y fit_params w :
  delegated m = true →
  NoDup (ts ++ [(name, final)]).*1 →
  Forall (λ step, fit_like cls step.2 = true ∧ transform_like cls step.2 = true) ts →
  hasattr cls final Fit = true →
  hasattr cls final m = false →
  Pipeline_init cls (ts ++ [(name, final)]) = Ok {| steps := ts ++ [(name, final)] |}
  ∧ call_method cls shape ndim add_axis m {| steps := ts ++ [(name, final)] |}
      X y fit_params w
    = (Raise AttributeError, w).
Proof.
  intros Hm Hnd Hts Hfit Hcap. split.
  - rewrite Pipeline_init_snoc, !decide_True by done. by rewrite Hfit.
  - apply (call_method_missing m _ final); [done | | done].
    by apply (final_estimator_snoc _ ts name).
Qed.

End Delegation.

Lemma missing_capability_raises_at_call_witness :
  hasattr Demo.cls 2%nat PredictProba = false
  ∧ Pipeline_init Demo.cls
      ([("scaler", 0%nat); ("sampler", 1%nat); ("plain", 4%nat)] ++ [("clf", 2%nat)])
    = Ok {| steps := [("scaler", 0%nat); ("sampler", 1%nat); ("plain", 4%nat)]
                     ++ [("clf", 2%nat)] |}
  ∧ call_method Demo.cls Demo.shape Demo.ndim Demo.add_axis PredictProba
      {| steps := [("scaler", 0%nat); ("sampler", 1%nat); ("plain", 4%nat)]
                  ++ [("clf", 2%nat)] |} [3; 4] [] [] Demo.w0
    = (Raise AttributeError, Demo.w0).
Proof.
  assert (NoDup ([("scaler", 0%nat); ("sampler", 1%nat); ("plain", 4%nat)]
                 ++ [("clf", 2%nat)]).*1) as Hnd
    by (apply (bool_decide_unpack _); vm_compute; exact I).
  assert (Forall (λ step : string * oid,
            fit_like Demo.cls step.2 = true ∧ transform_like Demo.cls step.2 = true)
            [("scaler", 0%nat); ("sampler", 1%nat); ("plain", 4%nat)]) as Hts
    by (repeat constructor).
  split; [reflexivity|].
  exact (missing_capability_raises_at_call Demo.cls Demo.shape Demo.ndim Demo.add_axis
           PredictProba [("scaler", 0%nat); ("sampler", 1%nat); ("plain", 4%nat)]
           "clf" 2%nat [3; 4] [] [] Demo.w0 eq_refl Hnd Hts eq_refl eq_refl).
Defined.

Example predict_proba_demo :
  predict_proba Demo.cls Demo.pipe [3; 4] Demo.w0 = (Raise AttributeError, Demo.w0).
Proof. reflexivity. Qed.

(** C1 (the code departs from its docstring): on the pipeline of a fitted
    scaler and a shift, both invertible, [inverse_transform] raises
    [NameError] before any step is called, where the docstring has the
    [inverse_transform] of the shift and then of the scaler. *)
Theorem inverse_transform_raises_NameError :
  inverse_transform Demo.cls Demo.ndim Demo.add_axis Demo.invertible [1; 2] Demo.w_fitted
  = (Raise NameError, Demo.w_fitted)
  ∧ inverse_transform_described Demo.cls Demo.invertible [1; 2] Demo.w_fitted
    = (Ok [3; 4],
       {| store := store Demo.w_fitted;
          trace := [Call 6%nat InverseTransform; Call 0%nat InverseTransform] |}).
Proof. split; reflexivity. Qed.

(** ** More on the generated names *)

Lemma string_app_cons (c : ascii) (a b : string) : String c a +:+ b = String c (a +:+ b).
Proof. reflexivity. Qed.

Lemma string_app_nil (b : string) : "" +:+ b = b.
Proof. reflexivity. Qed.

Lemma dash_free_app_dash (b d : string) : dash_free (b +:+ String "-" d) = false.
Proof.
  induction b as [|c b IH]; [done|].
  rewrite string_app_cons. cbn [dash_free]. rewrite IH. by destruct (negb _).
Qed.

Lemma dash_split_inj (b1 b2 d1 d2 : string) :
  dash_free b1 = true → dash_free b2 = true →
  b1 +:+ String "-" d1 = b2 +:+ String "-" d2 → b1 = b2 ∧ d1 = d2.
Proof.
  revert b2. induction b1 as [|c1 b1 IH]; intros [|c2 b2] H1 H2 Heq;
    rewrite ?string_app_cons, ?string_app_nil in Heq; cbn [dash_free] in *.
  - by injection Heq as ->.
  - injection Heq as <- _. done.
  - injection Heq as -> _. done.
  - injection Heq as -> Heq.
    apply andb_prop in H1 as [_ H1]. apply andb_prop in H2 as [_ H2].
    destruct (IH b2 H1 H2 Heq) as [-> ->]. done.
Qed.

Lemma lower_ascii_dash (c : ascii) :
  Ascii.eqb (PyStr.lower_ascii c) "-" = Ascii.eqb c "-".
Proof.
  destruct c as [[] [] [] [] [] [] [] []]; reflexivity.
Qed.

Lemma dash_free_lower (s : string) : dash_free (PyStr.lower s) = dash_free s.
Proof.
  induction s as [|c s IH]; [done|]. cbn. by rewrite lower_ascii_dash, IH.
Qed.

Section NameEstimatorsMore.
Context {E : Type}.
Variable type_name : E → string.
Implicit Types (names : list string) (name b : string).

Lemma occurrences_zero name names : occurrences name names = 0%nat ↔ name ∉ names.
Proof.
  induction names as [|x names IH].
  - split; [intros _; apply not_elem_of_nil | done].
  - rewrite occurrences_cons, not_elem_of_cons.
    destruct (decide (x = name)) as [->|Hne].
    + split; [lia | intros [? _]; done].
    + rewrite Nat.add_0_l, IH. split; [intros ?; split; [congruence | done] | by intros [_ ?]].
Qed.

Lemma occurrences_rank_lt name names i j :
  (i < j)%nat → names !! j = Some name →
  (occurrences name (take (S i) names) < occurrences name (take (S j) names))%nat.
Proof.
  intros Hij Hj. rewrite (occurrences_take_S name names j name Hj).
  rewrite decide_True by done.
  assert (take (S i) names = take (S i) (take j names)) as ->
    by (rewrite take_take; f_equal; lia).
  pose proof (occurrences_take_le name (take j names) (S i)). lia.
Qed.

Lemma occurrences_twice name names i j :
  i ≠ j → names !! i = Some name → names !! j = Some name →
  (2 ≤ occurrences name names)%nat.
Proof.
  assert (∀ i j, (i < j)%nat → names !! i = Some name → names !! j = Some name →
                 (2 ≤ occurrences name names)%nat) as Hlt.
  { clear i j. intros i j Hij Hi Hj.
    pose proof (occurrences_rank_lt name names i j Hij Hj).
    pose proof (occurrences_pos name names i Hi).
    pose proof (occurrences_take_le name names (S j)). lia. }
  intros Hij Hi Hj. destruct (decide (i < j)%nat); [by apply (Hlt i j) | apply (Hlt j i); [lia|done..]].
Qed.

Lemma names_by_rank_lookup estimators i e :
  estimators !! i = Some e →
  names_by_rank type_name estimators !! i
  = Some (suffixed ((λ estimator, PyStr.lower (type_name estimator)) <$> estimators) i
            (PyStr.lower (type_name e)), e).
Proof.
  intros He. unfold names_by_rank. by rewrite list_lookup_imap, He.
Qed.

Lemma name_estimators_snd estimators :
  (_name_estimators type_name estimators).*2 = estimators
  ∧ length (_name_estimators type_name estimators) = length estimators.
Proof.
  rewrite name_estimators_by_rank. unfold names_by_rank. split.
  - rewrite fmap_imap. apply list_eq. intros i.
    rewrite list_lookup_imap. by destruct (estimators !! i).
  - apply length_imap.
Qed.

(** The estimators come back in their order, each with one name. *)
Theorem name_estimators_keeps_estimators estimators :
  (_name_estimators type_name estimators).*2 = estimators
  ∧ length (_name_estimators type_name estimators) = length estimators.
Proof. apply name_estimators_snd. Qed.

(** Estimators of pairwise different (lowercased) type names are named
    by their lowercased type names, without suffix. *)
Theorem name_estimators_distinct_types estimators :
  NoDup ((λ estimator, PyStr.lower (type_name estimator)) <$> estimators) →
  _name_estimators type_name estimators
  = (λ estimator, (PyStr.lower (type_name estimator), estimator)) <$> estimators.
Proof.
  intros Hnd. rewrite name_estimators_by_rank. apply list_eq. intros i.
  rewrite list_lookup_fmap.
  destruct (estimators !! i) as [e|] eqn:He.
  - rewrite (names_by_rank_lookup _ _ _ He). cbn. do 2 f_equal.
    set (names := (λ estimator, PyStr.lower (type_name estimator)) <$> estimators) in *.
    assert (names !! i = Some (PyStr.lower (type_name e))) as Hi
      by (unfold names; by rewrite list_lookup_fmap, He).
    unfold suffixed. rewrite decide_True; [done|].
    pose proof (occurrences_lookup_pos _ _ _ Hi) as Hpos.
    destruct (decide (2 ≤ occurrences (PyStr.lower (type_name e)) names)%nat) as [Htwo|]; [|lia].
    exfalso. clear Hpos.
    assert (∃ j, j ≠ i ∧ names !! j = Some (PyStr.lower (type_name e))) as (j & Hji & Hj).
    { destruct (decide (PyStr.lower (type_name e) ∈ take i names)) as [Hin|Hnin].
      - apply elem_of_take in Hin as (j & Hj & Hlt). exists j. split; [lia|done].
      - apply occurrences_zero in Hnin.
        destruct (decide (PyStr.lower (type_name e) ∈ drop (S i) names)) as [Hin|Hnin'].
        + apply list_elem_of_lookup in Hin as (k & Hk). rewrite lookup_drop in Hk.
          exists (S i + k)%nat. split; [lia|done].
        + apply occurrences_zero in Hnin'.
          rewrite <- (take_drop (S i) names) in Htwo.
          unfold occurrences in *. rewrite filter_app, length_app in Htwo.
          rewrite (take_S_r _ _ _ Hi), filter_app, length_app in Htwo.
          rewrite filter_cons, decide_True in Htwo by done. cbn in Htwo. lia. }
    apply Hji. by apply (NoDup_lookup names j i (PyStr.lower (type_name e)) Hnd).
  - unfold names_by_rank. rewrite list_lookup_imap, He. done.
Qed.

(** Among the occurrences of a repeated name, the first one gets the
    suffix [-1] and the last one the number of occurrences. *)
Theorem name_estimators_first_and_last estimators i e :
  let names := (λ estimator, PyStr.lower (type_name estimator)) <$> estimators in
  let name := PyStr.lower (type_name e) in
  estimators !! i = Some e →
  (2 ≤ occurrences name names)%nat →
  (name ∉ take i names →
     _name_estimators type_name estimators !! i = Some (name +:+ "-1", e))
  ∧ (name ∉ drop (S i) names →
     _name_estimators type_name estimators !! i
     = Some (name +:+ PyStr.dash_d (Z.of_nat (occurrences name names)), e)).
Proof.
  intros names name He Htwo.
  assert (names !! i = Some name) as Hi
    by (unfold names; by rewrite list_lookup_fmap, He).
  rewrite name_estimators_by_rank, (names_by_rank_lookup _ _ _ He).
  fold names name. unfold suffixed. rewrite decide_False by lia.
  rewrite (occurrences_take_S _ _ _ _ Hi), decide_True by done. split.
  - intros Hnin%occurrences_zero. rewrite Hnin. done.
  - intros Hnin%occurrences_zero. do 4 f_equal.
    rewrite <- (take_drop (S i) names) at 2.
    unfold occurrences in *. rewrite filter_app, length_app, Hnin.
    rewrite (take_S_r _ _ _ Hi), filter_app, length_app.
    rewrite filter_cons, decide_True by done. cbn. lia.
Qed.

Lemma name_estimators_NoDup estimators :
  (∀ e, e ∈ estimators → dash_free (type_name e) = true) →
  NoDup (_name_estimators type_name estimators).*1.
Proof.
  intros Hfree. rewrite name_estimators_by_rank.
  set (names := (λ estimator, PyStr.lower (type_name estimator)) <$> estimators).
  apply NoDup_alt. intros i j x Hi Hj.
  rewrite list_lookup_fmap in Hi, Hj.
  destruct (estimators !! i) as [ei|] eqn:Hei;
    [|by rewrite (proj2 (lookup_ge_None _ _)) in Hi
        by (unfold names_by_rank; rewrite length_imap; by apply lookup_ge_None)].
  destruct (estimators !! j) as [ej|] eqn:Hej;
    [|by rewrite (proj2 (lookup_ge_None _ _)) in Hj
        by (unfold names_by_rank; rewrite length_imap; by apply lookup_ge_None)].
  rewrite (names_by_rank_lookup _ _ _ Hei) in Hi.
  rewrite (names_by_rank_lookup _ _ _ Hej) in Hj.
  fold names in Hi, Hj. cbn in Hi, Hj.
  injection Hi as Hi. injection Hj as Hj. subst x.
  set (bi := PyStr.lower (type_name ei)) in *.
  set (bj := PyStr.lower (type_name ej)) in *.
  assert (names !! i = Some bi) as Hni by (unfold names; by rewrite list_lookup_fmap, Hei).
  assert (names !! j = Some bj) as Hnj by (unfold names; by rewrite list_lookup_fmap, Hej).
  assert (dash_free bi = true) as Hfi
    by (unfold bi; rewrite dash_free_lower; apply Hfree; by eapply list_elem_of_lookup_2).
  assert (dash_free bj = true) as Hfj
    by (unfold bj; rewrite dash_free_lower; apply Hfree; by eapply list_elem_of_lookup_2).
  unfold suffixed, PyStr.dash_d in Hj.
  destruct (decide (occurrences bj names = 1%nat)) as [Hoj|Hoj];
    destruct (decide (occurrences bi names = 1%nat)) as [Hoi|Hoi].
  - rewrite Hj in Hnj. destruct (decide (i = j)) as [|Hne]; [done|].
    pose proof (occurrences_twice _ _ _ _ Hne Hni Hnj). lia.
  - rewrite Hj in Hfj.
    by rewrite string_app_cons, string_app_nil, dash_free_app_dash in Hfj.
  - rewrite <- Hj in Hfi.
    by rewrite string_app_cons, string_app_nil, dash_free_app_dash in Hfi.
  - rewrite !string_app_cons, !string_app_nil in Hj.
    apply dash_split_inj in Hj as [Hb Hrank]; [|done..].
    apply (inj pretty) in Hrank. apply Nat2Z.inj in Hrank. rewrite Hb in Hrank, Hnj.
    destruct (decide (i = j)) as [|Hne]; [done|]. exfalso.
    destruct (decide (i < j)%nat).
    + pose proof (occurrences_rank_lt bi names i j ltac:(lia) Hnj). lia.
    + pose proof (occurrences_rank_lt bi names j i ltac:(lia) Hni). lia.
Qed.

(** When no type name holds a [-], the generated names are pairwise
    different. *)
Theorem name_estimators_names_unique estimators :
  (∀ e, e ∈ estimators → dash_free (type_name e) = true) →
  NoDup (_name_estimators type_name estimators).*1.
Proof. apply name_estimators_NoDup. Qed.

End NameEstimatorsMore.

Lemma name_estimators_distinct_types_witness :
  NoDup ((λ estimator, PyStr.lower (id estimator)) <$> ["Scaler"; "SVC"])
  ∧ _name_estimators id ["Scaler"; "SVC"] = [("scaler", "Scaler"); ("svc", "SVC")].
Proof.
  assert (NoDup ((λ estimator, PyStr.lower (id estimator)) <$> ["Scaler"; "SVC"])) as Hnd
    by (apply (bool_decide_unpack _); vm_compute; exact I).
  split; [exact Hnd|].
  exact (name_estimators_distinct_types id ["Scaler"; "SVC"] Hnd).
Defined.

Lemma name_estimators_first_and_last_witness :
  (2 ≤ occurrences (PyStr.lower "PCA") (PyStr.lower <$> ["PCA"; "SVC"; "PCA"; "PCA"]))%nat
  ∧ _name_estimators id ["PCA"; "SVC"; "PCA"; "PCA"] !! 3%nat = Some ("pca-3", "PCA").
Proof.
  assert (2 ≤ occurrences (PyStr.lower "PCA")
               (PyStr.lower <$> ["PCA"; "SVC"; "PCA"; "PCA"]))%nat as Htwo
    by (vm_compute; lia).
  split; [exact Htwo|].
  refine (proj2 (name_estimators_first_and_last id ["PCA"; "SVC"; "PCA"; "PCA"] 3 "PCA"
                   eq_refl Htwo) _).
  cbn. apply not_elem_of_nil.
Defined.

Lemma name_estimators_names_unique_witness :
  (∀ e, e ∈ ["PCA"; "SVC"; "PCA"] → dash_free (id e) = true)
  ∧ NoDup (_name_estimators id ["PCA"; "SVC"; "PCA"]).*1.
Proof.
  assert (∀ e, e ∈ ["PCA"; "SVC"; "PCA"] → dash_free (id e) = true) as Hfree.
  { intros e He. repeat (apply elem_of_cons in He as [->|He]; [reflexivity|]).
    by apply elem_of_nil in He. }
  split; [exact Hfree|].
  exact (name_estimators_names_unique id ["PCA"; "SVC"; "PCA"] Hfree).
Defined.

(** ** More on construction *)

Section DictLookup.
Context {V : Type}.
Implicit Types (l : list (string * V)) (k : string) (v : V).

Lemma dict_of_lookup_Some_elem l k v : dict_of l !! k = Some v → (k, v) ∈ l.
Proof.
  induction l as [|[k' v'] l IH] using rev_ind; [done|].
  rewrite dict_of_snoc, elem_of_app, list_elem_of_singleton.
  destruct (decide (k' = k)) as [->|Hne].
  - rewrite lookup_insert_eq. intros [= ->]. by right.
  - rewrite lookup_insert_ne by done. intros H. left. by apply IH.
Qed.

Lemma dict_of_lookup_NoDup l k v : NoDup l.*1 → (k, v) ∈ l → dict_of l !! k = Some v.
Proof.
  induction l as [|[k' v'] l IH] using rev_ind; [by intros _ ?%elem_of_nil|].
  rewrite fmap_app, NoDup_app, dict_of_snoc, elem_of_app, list_elem_of_singleton.
  intros (Hnd & Hdisj & _) [Hin|[= -> ->]].
  - rewrite lookup_insert_ne; [by apply IH|].
    intros ->. apply (Hdisj k); [|by left].
    apply list_elem_of_fmap. by exists (k, v).
  - apply lookup_insert_eq.
Qed.

End DictLookup.

Section ConstructionMore.
Context {data target out value W : Type}.
Variable cls : oid → methods data target out value W.

Lemma Pipeline_init_Ok_snoc steps0 p :
  Pipeline_init cls steps0 = Ok p →
  ∃ ts name final,
    steps0 = ts ++ [(name, final)] ∧ p = {| steps := steps0 |}
    ∧ NoDup steps0.*1
    ∧ Forall (λ step, fit_like cls step.2 = true ∧ transform_like cls step.2 = true) ts
    ∧ hasattr cls final Fit = true.
Proof.
  intros Hinit. destruct (Pipeline_init_Ok cls _ _ Hinit) as [Hne ->].
  destruct (snoc_of_nonempty _ Hne) as (ts & [name final] & ->).
  rewrite Pipeline_init_snoc in Hinit.
  destruct (decide (NoDup _)) as [Hnd|]; [|done].
  destruct (decide (Forall _ ts)) as [Hts|]; [|done].
  destruct (hasattr cls final Fit) eqn:Hfit; [|done].
  by exists ts, name, final.
Qed.

(** What every constructed pipeline satisfies: it holds the given steps,
    their names are pairwise different, the steps are valid, and the final
    estimator is there and can [fit]. *)
Theorem Pipeline_init_invariant steps0 p :
  Pipeline_init cls steps0 = Ok p →
  steps p = steps0
  ∧ NoDup (steps p).*1
  ∧ steps_valid cls (steps p)
  ∧ ∃ final, _final_estimator p = Ok final ∧ hasattr cls final Fit = true.
Proof.
  intros (ts & name & final & -> & -> & Hnd & Hts & Hfit)%Pipeline_init_Ok_snoc.
  cbn [steps]. split_and!; [done | done | by exists ts, name, final |].
  exists final. split; [|done]. unfold _final_estimator. cbn [steps].
  by rewrite item_last_snoc.
Qed.

(** [named_steps] of a constructed pipeline finds each step under its
    name and nothing else. *)
Theorem named_steps_constructed steps0 p :
  Pipeline_init cls steps0 = Ok p →
  (∀ name o, named_steps p !! name = Some o ↔ (name, o) ∈ steps p)
  ∧ size (named_steps p) = length (steps p).
Proof.
  intros (ts & name & final & -> & -> & Hnd & _)%Pipeline_init_Ok_snoc.
  unfold named_steps. cbn [steps]. split.
  - intros name' o. split; [apply dict_of_lookup_Some_elem | by apply dict_of_lookup_NoDup].
  - by apply dict_of_size_NoDup.
Qed.

(** [make_pipeline] on estimators whose type names hold no [-] never
    fails on the names: it raises [ValueError] on no estimators at all, and
    otherwise it succeeds exactly when the steps are valid and raises
    [TypeError] when they are not. *)
Theorem make_pipeline_outcome estimators :
  (∀ e, e ∈ estimators → dash_free (class_name (cls e)) = true) →
  let named := _name_estimators (λ o, class_name (cls o)) estimators in
  (estimators = [] → make_pipeline cls estimators = Raise ValueError)
  ∧ (estimators ≠ [] →
       (steps_valid cls named ↔ make_pipeline cls estimators = Ok {| steps := named |})
       ∧ (¬ steps_valid cls named → make_pipeline cls estimators = Raise TypeError)).
Proof.
  intros Hfree named. split; [by intros ->|]. intros Hne.
  pose proof (name_estimators_NoDup (λ o, class_name (cls o)) estimators Hfree) as Hnd.
  destruct (name_estimators_snd (λ o, class_name (cls o)) estimators) as [_ Hlen].
  fold named in Hnd, Hlen. unfold make_pipeline. fold named.
  assert (named ≠ []) as Hne' by (intros Heq; rewrite Heq in Hlen; by destruct estimators).
  destruct (snoc_of_nonempty _ Hne') as (ts & [name final] & Heq).
  rewrite Heq in *. rewrite Pipeline_init_snoc, decide_True by done.
  rewrite steps_valid_snoc.
  destruct (decide (Forall _ ts)) as [Hts|Hts];
    [destruct (hasattr cls final Fit) eqn:Hfit|]; split.
  - done.
  - intros H. by destruct H.
  - split; [by intros [_ ?] | done].
  - done.
  - split; [by intros [? _] | done].
  - done.
Qed.

End ConstructionMore.

Lemma Pipeline_init_invariant_witness :
  Pipeline_init Demo.cls (steps Demo.pipe) = Ok Demo.pipe
  ∧ NoDup (steps Demo.pipe).*1.
Proof.
  assert (Pipeline_init Demo.cls (steps Demo.pipe) = Ok Demo.pipe) as Hinit
    by (vm_compute; reflexivity).
  split; [exact Hinit|].
  exact (proj1 (proj2 (Pipeline_init_invariant Demo.cls _ _ Hinit))).
Defined.

Lemma named_steps_constructed_witness :
  Pipeline_init Demo.cls (steps Demo.pipe) = Ok Demo.pipe
  ∧ named_steps Demo.pipe !! "plain" = Some 4%nat.
Proof.
  assert (Pipeline_init Demo.cls (steps Demo.pipe) = Ok Demo.pipe) as Hinit
    by (vm_compute; reflexivity).
  split; [exact Hinit|].
  apply (proj1 (named_steps_constructed Demo.cls _ _ Hinit) "plain" 4%nat).
  apply (bool_decide_unpack _). vm_compute. exact I.
Defined.

Lemma demo_class_names_dash_free o : dash_free (class_name (Demo.cls o)) = true.
Proof. do 7 (destruct o as [|o]; [reflexivity|]). reflexivity. Qed.

Lemma make_pipeline_outcome_witness :
  (∀ e, e ∈ [0%nat; 0%nat; 2%nat] → dash_free (class_name (Demo.cls e)) = true)
  ∧ make_pipeline Demo.cls [0%nat; 0%nat; 2%nat]
    = Ok {| steps := [("scaler-1", 0%nat); ("scaler-2", 0%nat); ("classifier", 2%nat)] |}.
Proof.
  assert (∀ e, e ∈ [0%nat; 0%nat; 2%nat] → dash_free (class_name (Demo.cls e)) = true)
    as Hfree by (intros e _; apply demo_class_names_dash_free).
  split; [exact Hfree|].
  apply (proj1 (proj2 (make_pipeline_outcome Demo.cls [0%nat; 0%nat; 2%nat] Hfree)
                  ltac:(discriminate))).
  exists [("scaler-1", 0%nat); ("scaler-2", 0%nat)], "classifier", 2%nat.
  split; [vm_compute; reflexivity|]. split; [repeat constructor | reflexivity].
Defined.

(** ** More on the keyword arguments *)

Lemma cut_Some_join (s a b : string) :
  PyStr.cut s = Some (a, b) → s = a +:+ "__" +:+ b.
Proof.
  revert a. induction s as [|c s IH]; intros a; [done|].
  cbn [PyStr.cut]. destruct s as [|c' rest]; [done|].
  destruct (Ascii.eqb c "_" && Ascii.eqb c' "_")%bool eqn:Hsep.
  - intros [= <- <-]. apply andb_prop in Hsep as [->%Ascii.eqb_eq ->%Ascii.eqb_eq]. done.
  - destruct (PyStr.cut (String c' rest)) as [[a' b']|] eqn:Hcut; [|done].
    cbn. intros [= <- <-]. rewrite string_app_cons. f_equal. by apply IH.
Qed.

Lemma cut_join (a b : string) :
  plain_name a = true → PyStr.cut (a +:+ "__" +:+ b) = Some (a, b).
Proof.
  induction a as [|c a IH]; [done|].
  cbn [plain_name]. destruct a as [|c' a'].
  - intros Hc. rewrite string_app_cons, string_app_nil.
    change ("__" +:+ b) with (String "_" (String "_" b)).
    cbn [PyStr.cut]. destruct (Ascii.eqb c "_"); [done|]. done.
  - intros [Hsep Hplain]%andb_prop. specialize (IH Hplain).
    rewrite string_app_cons. rewrite string_app_cons in IH |- *.
    cbn [PyStr.cut]. apply negb_true_iff in Hsep. rewrite Hsep.
    cbn [PyStr.cut] in IH. by rewrite IH.
Qed.

Section SplittingMore.
Context {value : Type}.
Implicit Types (self : Pipeline) (fit_params : list (string * value)).
Implicit Types (fps : gmap string (gmap string value)) (v : value).

Lemma elem_of_entries_of name fit_params param v :
  (param, v) ∈ entries_of name fit_params
  ↔ ∃ pname, (pname, v) ∈ fit_params ∧ PyStr.cut pname = Some (name, param).
Proof.
  unfold entries_of. rewrite list_elem_of_omap. split.
  - intros ([pname pval] & Hin & Hf).
    destruct (PyStr.cut pname) as [[step param']|] eqn:Hcut; [|done].
    destruct (decide (step = name)) as [->|]; [|done].
    injection Hf as -> ->. by exists pname.
  - intros (pname & Hin & Hcut). exists (pname, v). split; [done|].
    rewrite Hcut. by rewrite decide_True.
Qed.

Lemma entries_of_NoDup name fit_params :
  NoDup fit_params.*1 → NoDup (entries_of name fit_params).*1.
Proof.
  induction fit_params as [|[pname pval] fit_params IH]; [by constructor|].
  rewrite fmap_cons, NoDup_cons. intros [Hnin Hnd]. specialize (IH Hnd).
  unfold entries_of. cbn [omap list_omap]. fold (entries_of name fit_params).
  destruct (PyStr.cut pname) as [[step param]|] eqn:Hcut; [|done].
  destruct (decide (step = name)) as [->|]; [|done].
  rewrite fmap_cons. apply NoDup_cons. split; [|done].
  intros ([param' v] & Heq & Hin)%list_elem_of_fmap. cbn in Heq. subst param'.
  apply elem_of_entries_of in Hin as (pname' & Hin & Hcut').
  apply cut_Some_join in Hcut, Hcut'. subst pname pname'.
  apply Hnin. apply list_elem_of_fmap. by eexists (_, v).
Qed.

(** Lookup in a sub-mapping, in terms of the flat mapping. *)
Lemma sub_mapping_lookup name fit_params param v :
  NoDup fit_params.*1 →
  plain_name name = true →
  sub_mapping name fit_params !! param = Some v
  ↔ (name +:+ "__" +:+ param, v) ∈ fit_params.
Proof.
  intros Hnd Hplain. unfold sub_mapping. split.
  - intros (pname & Hin & Hcut)%dict_of_lookup_Some_elem%elem_of_entries_of.
    apply cut_Some_join in Hcut. by subst pname.
  - intros Hin. apply dict_of_lookup_NoDup; [by apply entries_of_NoDup|].
    apply elem_of_entries_of. eexists. split; [done|]. by apply cut_join.
Qed.


(** Routing of a parameter by the splitting loop: with keys that are
    pairwise different, as in a dictionary, the dictionary the loop builds
    for a step whose name holds no [__] and does not end in [_] holds the
    value [v] under [param] exactly when the flat mapping holds [v] under
    [name__param]. *)
Theorem split_fit_params_routes self fit_params fps name param v :
  NoDup fit_params.*1 →
  plain_name name = true →
  name ∈ (steps self).*1 →
  split_fit_params self fit_params = Ok fps →
  (∃ d, fps !! name = Some d ∧ d !! param = Some v)
  ↔ (name +:+ "__" +:+ param, v) ∈ fit_params.
Proof.
  intros Hnd Hplain Hname Hsplit.
  apply split_fit_params_Ok_inv in Hsplit. specialize (Hsplit name).
  rewrite decide_True in Hsplit by done.
  rewrite <- (sub_mapping_lookup name fit_params param v Hnd Hplain). split.
  - intros (d & Hd & Hv). rewrite Hsplit in Hd. by injection Hd as <-.
  - intros Hv. by exists (sub_mapping name fit_params).
Qed.

End SplittingMore.

Lemma split_fit_params_routes_witness :
  NoDup [("clf__C", 5); ("scaler__shift", 1)].*1
  ∧ plain_name "clf" = true
  ∧ ∃ fps, split_fit_params Demo.pipe [("clf__C", 5); ("scaler__shift", 1)] = Ok fps
           ∧ ∃ d, fps !! "clf" = Some d ∧ d !! "C" = Some 5.
Proof.
  assert (NoDup [("clf__C", 5); ("scaler__shift", 1)].*1) as Hnd
    by (apply (bool_decide_unpack _); vm_compute; exact I).
  assert ("clf" ∈ (steps Demo.pipe).*1) as Hname
    by (apply (bool_decide_unpack _); vm_compute; exact I).
  split; [exact Hnd|]. split; [reflexivity|].
  destruct (split_fit_params Demo.pipe [("clf__C", 5); ("scaler__shift", 1)])
    as [fps|e] eqn:Hsplit; [|by vm_compute in Hsplit].
  exists fps. split; [reflexivity|].
  apply (proj2 (split_fit_params_routes Demo.pipe [("clf__C", 5); ("scaler__shift", 1)]
                  fps "clf" "C" 5 Hnd eq_refl Hname Hsplit)).
  apply (bool_decide_unpack _). vm_compute. exact I.
Defined.


(** ** More on fitting *)

Section FittingMore.
Context {data target out value W : Type}.
Variable cls : oid → methods data target out value W.
Implicit Types (self : Pipeline) (fit_params : list (string * value)).
Implicit Types (X : data) (y : target) (w : world W).

(** The pre-transform phase: the splitting, then the steps before the
    last. *)
Lemma pre_transform_eq self ts name final X y fit_params w :
  steps self = ts ++ [(name, final)] →
  _pre_transform cls self X y fit_params w
  = (let* Xy := (let* _ := liftR (split_fit_params self fit_params) in
                 pre_steps_described cls fit_params ts (X, y)) in
     ret (Xy.1, Xy.2, sub_mapping name fit_params)) w.
Proof.
  intros Hs. rewrite bind_assoc. unfold _pre_transform.
  destruct (split_fit_params self fit_params) as [fps|e] eqn:Hsplit; [|done].
  apply split_fit_params_Ok_inv in Hsplit.
  rewrite !bind_liftR_Ok, Hs, but_last_snoc, item_last_snoc.
  apply bind_ext.
  - apply pre_loop_described. intros name' t Hin.
    rewrite (Hsplit name'), decide_True; [done|].
    rewrite Hs, fmap_app. apply elem_of_app. left.
    apply list_elem_of_fmap. by exists (name', t).
  - intros [Xt yt] w1. rewrite bind_liftR_Ok. unfold getitem.
    rewrite (Hsplit name), decide_True; [done|].
    rewrite Hs, fmap_app. apply elem_of_app. right. by left.
Qed.

Lemma bind_pre_transform {B} self ts name final X y fit_params
    (k : data * target * gmap string value → M W B) w :
  steps self = ts ++ [(name, final)] →
  bind (_pre_transform cls self X y fit_params) k w
  = (let* Xy := (let* _ := liftR (split_fit_params self fit_params) in
                 pre_steps_described cls fit_params ts (X, y)) in
     k (Xy.1, Xy.2, sub_mapping name fit_params)) w.
Proof.
  intros Hs.
  rewrite (bind_ext _ _ k k w (pre_transform_eq self ts name final X y fit_params w Hs)
             (λ _ _, eq_refl)).
  rewrite bind_assoc. apply bind_ext; [done|]. intros Xy w1. apply bind_ret_l.
Qed.

(** Every fitting operation is the pre-transform phase followed by the
    matching method of the final estimator, which gets the data and the
    labels as the steps before it left them and its own parameter
    sub-mapping.  [fit_transform] falls back on [fit] followed by
    [transform] of the data the final estimator was fitted on. *)
Theorem fitting_hands_over_to_final self ts name final X y fit_params w :
  steps self = ts ++ [(name, final)] →
  let pre := (let* _ := liftR (split_fit_params self fit_params) in
              pre_steps_described cls fit_params ts (X, y)) in
  let kw := sub_mapping name fit_params in
  fit cls self X y fit_params w
  = (let* Xy := pre in
     let* f := getattr_ (m_fit (cls final)) in
     let* _ := invoke final Fit (f Xy.1 Xy.2 kw) in
     ret tt) w
  ∧ fit_transform cls self X y fit_params w
    = (let* Xy := pre in
       if hasattr cls final FitTransform then
         let* f := getattr_ (m_fit_transform (cls final)) in
         invoke final FitTransform (f Xy.1 Xy.2 kw)
       else
         let* f := getattr_ (m_fit (cls final)) in
         let* fitted := invoke final Fit (f Xy.1 Xy.2 kw) in
         let* g := getattr_ (m_transform (cls fitted)) in
         invoke fitted Transform (g Xy.1)) w
  ∧ fit_sample cls self X y fit_params w
    = (let* _ := if_delegate_has_method cls self FitSample in
       let* Xy := pre in
       let* f := getattr_ (m_fit_sample (cls final)) in
       invoke final FitSample (f Xy.1 Xy.2 kw)) w
  ∧ fit_predict cls self X y fit_params w
    = (let* _ := if_delegate_has_method cls self FitPredict in
       let* Xy := pre in
       let* f := getattr_ (m_fit_predict (cls final)) in
       invoke final FitPredict (f Xy.1 Xy.2 kw)) w.
Proof.
  intros Hs pre kw.
  pose proof (final_estimator_snoc self ts name final Hs) as Hfinal.
  split_and!.
  - unfold fit. rewrite (bind_pre_transform _ ts name final) by done.
    apply bind_ext; [done|]. intros Xy w1. by rewrite Hfinal, bind_liftR_Ok.
  - unfold fit_transform. rewrite (bind_pre_transform _ ts name final) by done.
    apply bind_ext; [done|]. intros Xy w1. by rewrite Hfinal, bind_liftR_Ok.
  - unfold fit_sample. apply bind_ext; [done|]. intros _ w0.
    rewrite (bind_pre_transform _ ts name final) by done.
    apply bind_ext; [done|]. intros Xy w1. by rewrite Hfinal, bind_liftR_Ok.
  - unfold fit_predict. apply bind_ext; [done|]. intros _ w0.
    rewrite (bind_pre_transform _ ts name final) by done.
    apply bind_ext; [done|]. intros Xy w1. by rewrite Hfinal, bind_liftR_Ok.
Qed.

Lemma pre_steps_described_labels fit_params ts :
  Forall (λ step, hasattr cls step.2 FitTransform = true
                  ∨ hasattr cls step.2 FitSample = false) ts →
  ∀ Xy w Xy' w',
    pre_steps_described cls fit_params ts Xy w = (Ok Xy', w') → Xy'.2 = Xy.2.
Proof.
  induction 1 as [|[name t] ts Ht _ IH]; intros Xy w Xy' w'.
  - by intros [= <- _].
  - cbn [pre_steps_described]. unfold bind at 1.
    destruct (pre_step_described _ _ _ _ w) as [[Xy1|e] w1] eqn:Hstep; [|done].
    intros Hrest. rewrite (IH _ _ _ _ Hrest). clear Hrest IH.
    revert Hstep. unfold pre_step_described. cbn [snd] in Ht. unfold hasattr in Ht.
    destruct (m_fit_transform (cls t)) as [ft|].
    + unfold bind. destruct (invoke _ _ _ w) as [[Xt|e] w2]; [|done]. by intros [= <- _].
    + destruct (m_fit_sample (cls t)) as [fs|]; [by destruct Ht|].
      destruct (m_fit (cls t)) as [f|]; [|done]. cbn [getattr_]. rewrite bind_ret_l.
      unfold bind at 1. destruct (invoke _ _ _ w) as [[fitted|e] w2]; [|done].
      destruct (m_transform (cls fitted)) as [g|]; [|done]. cbn [getattr_].
      rewrite bind_ret_l. unfold bind.
      destruct (invoke _ _ _ w2) as [[Xt|e] w3]; [|done]. by intros [= <- _].
Qed.

(** The labels change in resampling steps only: when every step before
    the last one has [fit_transform] or lacks [fit_sample], the
    pre-transform phase gives the labels back as it got them. *)
Theorem pre_transform_keeps_labels self ts name final X y fit_params w Xt yt kw w' :
  steps self = ts ++ [(name, final)] →
  Forall (λ step, hasattr cls step.2 FitTransform = true
                  ∨ hasattr cls step.2 FitSample = false) ts →
  _pre_transform cls self X y fit_params w = (Ok (Xt, yt, kw), w') →
  yt = y.
Proof.
  intros Hs Hts. rewrite (pre_transform_eq self ts name final) by done.
  unfold bind. destruct (liftR _ w) as [[fps|e] w0]; [|done].
  destruct (pre_steps_described _ _ _ _ w0) as [[Xy|e] w1] eqn:Hsteps; [|done].
  intros [= _ <- _ _]. by apply (pre_steps_described_labels _ _ Hts) in Hsteps.
Qed.

(** A gap in the checks of construction: on a constructed pipeline whose
    first step is not the last, has neither [fit_transform] nor
    [fit_sample], and whose [fit] gives back an object without [transform]
    (the step itself, when it can only [fit] and [sample]), [fit] raises
    [AttributeError] right after it has fitted that step. *)
Theorem sample_only_step_breaks_fit self name t rest X y fit_params w f fitted s' :
  Pipeline_init cls ((name, t) :: rest) = Ok self →
  rest ≠ [] →
  hasattr cls t FitTransform = false →
  hasattr cls t FitSample = false →
  m_fit (cls t) = Some f →
  Forall (λ item, key_of_step self item.1) fit_params →
  f X y (sub_mapping name fit_params) (store w) = (Ok fitted, s') →
  hasattr cls fitted Transform = false →
  fit cls self X y fit_params w
  = (Raise AttributeError, {| store := s'; trace := trace w ++ [Call t Fit] |}).
Proof.
  intros Hinit Hrest Hft Hfs Hfit Hkeys Hrun Htr.
  apply Pipeline_init_Ok_snoc in Hinit
    as (ts & name' & final & Heq & -> & _ & Hts & _).
  destruct ts as [|step ts]; [by destruct rest|].
  injection Heq as <- ->.
  unfold fit.
  rewrite (bind_pre_transform _ ((name, t) :: ts) name' final) by done.
  destruct (split_fit_params_Ok _ fit_params Hkeys) as (fps & Hsplit & _).
  rewrite Hsplit. rewrite bind_assoc, bind_liftR_Ok.
  cbn [pre_steps_described]. rewrite !bind_assoc.
  unfold pre_step_described, hasattr in *.
  destruct (m_fit_transform (cls t)); [done|].
  destruct (m_fit_sample (cls t)); [done|].
  rewrite Hfit. cbn [getattr_ fst snd]. rewrite bind_assoc, bind_ret_l, bind_assoc.
  unfold bind at 1. unfold invoke at 1. rewrite Hrun.
  destruct (m_transform (cls fitted)); [done|]. reflexivity.
Qed.

End FittingMore.

Lemma fitting_hands_over_to_final_witness :
  steps Demo.pipe
  = [("scaler", 0%nat); ("sampler", 1%nat); ("plain", 4%nat)] ++ [("clf", 2%nat)]
  ∧ fit Demo.cls Demo.pipe [3; 4] [0; 1] [("clf__C", 5)] Demo.w0
    = (let* Xy := (let* _ := liftR (split_fit_params Demo.pipe [("clf__C", 5)]) in
                   pre_steps_described Demo.cls [("clf__C", 5)]
                     [("scaler", 0%nat); ("sampler", 1%nat); ("plain", 4%nat)]
                     ([3; 4], [0; 1])) in
       let* f := getattr_ (m_fit (Demo.cls 2%nat)) in
       let* _ := invoke 2%nat Fit (f Xy.1 Xy.2 (sub_mapping "clf" [("clf__C", 5)])) in
       ret tt) Demo.w0.
Proof.
  split; [reflexivity|].
  exact (proj1 (fitting_hands_over_to_final Demo.cls Demo.pipe
                  [("scaler", 0%nat); ("sampler", 1%nat); ("plain", 4%nat)] "clf" 2%nat
                  [3; 4] [0; 1] [("clf__C", 5)] Demo.w0 eq_refl)).
Defined.

Lemma pre_transform_keeps_labels_witness :
  _pre_transform Demo.cls {| steps := [("scaler", 0%nat); ("clf", 2%nat)] |}
    [3; 4] [0; 1] [] Demo.w0
  = (Ok ([0; 1], [0; 1], ∅), {| store := {[0%nat := 3]}; trace := [Call 0%nat FitTransform] |})
  ∧ [0; 1] = [0; 1].
Proof.
  assert (_pre_transform Demo.cls {| steps := [("scaler", 0%nat); ("clf", 2%nat)] |}
            [3; 4] [0; 1] [] Demo.w0
          = (Ok ([0; 1], [0; 1], ∅),
             {| store := {[0%nat := 3]}; trace := [Call 0%nat FitTransform] |})) as Hrun
    by reflexivity.
  split; [exact Hrun|].
  refine (pre_transform_keeps_labels Demo.cls
            {| steps := [("scaler", 0%nat); ("clf", 2%nat)] |}
            [("scaler", 0%nat)] "clf" 2%nat [3; 4] [0; 1] [] Demo.w0 _ _ _ _
            eq_refl _ Hrun).
  repeat constructor.
Defined.

Lemma sample_only_step_breaks_fit_witness :
  Pipeline_init Demo2.cls [("bare", 7%nat); ("clf", 2%nat)] = Ok Demo2.pipe
  ∧ fit Demo2.cls Demo2.pipe [3; 4] [0; 1] [] Demo.w0
    = (Raise AttributeError,
       {| store := <[7%nat := 1]> ∅; trace := trace Demo.w0 ++ [Call 7%nat Fit] |}).
Proof.
  assert (Pipeline_init Demo2.cls [("bare", 7%nat); ("clf", 2%nat)] = Ok Demo2.pipe)
    as Hinit by (vm_compute; reflexivity).
  split; [exact Hinit|].
  refine (sample_only_step_breaks_fit Demo2.cls Demo2.pipe "bare" 7%nat [("clf", 2%nat)]
            [3; 4] [0; 1] [] Demo.w0 Demo2.bare_fit 7%nat (<[7%nat := 1]> ∅)
            Hinit _ eq_refl eq_refl eq_refl _ eq_refl eq_refl).
  - discriminate.
  - constructor.
Defined.

(** ** The calls of inference *)

Section Calls.
Context {data target out value W : Type}.
Variable cls : oid → methods data target out value W.
Variable shape : data → option string.
Variable ndim : data → option Z.
Variable add_axis : data → data.
Implicit Types (self : Pipeline) (X : data) (y : target) (w : world W).

Lemma calls_within_pure {A} (c : M W A) :
  (∀ w, (c w).2 = w) → calls_within c [].
Proof.
  intros Hc w r w' Hrun. exists []. split_and!; [done | | done].
  pose proof (Hc w) as Hw. rewrite Hrun in Hw. cbn in Hw. subst w'. by rewrite app_nil_r.
Qed.

Lemma calls_within_ext {A} (c c' : M W A) full :
  (∀ w, c w = c' w) → calls_within c' full → calls_within c full.
Proof. intros Heq Hc' w r w' Hrun. rewrite Heq in Hrun. by apply Hc'. Qed.

Lemma calls_within_getattr {A} (attr : option A) : calls_within (W:=W) (getattr_ attr) [].
Proof. apply calls_within_pure. by destruct attr. Qed.

Lemma calls_within_liftR {A} (r : res A) : calls_within (W:=W) (liftR r) [].
Proof. by apply calls_within_pure. Qed.

Lemma calls_within_ret {A} (a : A) : calls_within (W:=W) (ret a) [].
Proof. by apply calls_within_pure. Qed.

Lemma calls_within_invoke {A} o m (body : W → res A * W) :
  calls_within (invoke o m body) [(o, m)].
Proof.
  intros w r w' [_ Htr]%invoke_inv. exists [(o, m)]. split_and!; [done | | done].
  rewrite Htr. unfold calls. by rewrite omap_app.
Qed.

Lemma calls_within_bind {A B} (c : M W A) (k : A → M W B) full1 full2 :
  calls_within c full1 → (∀ a, calls_within (k a) full2) →
  calls_within (bind c k) (full1 ++ full2).
Proof.
  intros Hc Hk w r w'. unfold bind.
  destruct (c w) as [[a|e] w1] eqn:Hrun1.
  - intros Hrun2.
    destruct (Hc _ _ _ Hrun1) as (cs1 & _ & Htr1 & Hfull1).
    destruct (Hk a _ _ _ Hrun2) as (cs2 & Hpre2 & Htr2 & Hfull2).
    rewrite (Hfull1 a eq_refl) in Htr1.
    exists (full1 ++ cs2). split_and!.
    + by apply prefix_app.
    + by rewrite Htr2, Htr1, <- app_assoc.
    + intros v Hv. by rewrite (Hfull2 v Hv).
  - intros [= <- <-].
    destruct (Hc _ _ _ Hrun1) as (cs1 & Hpre1 & Htr1 & _).
    exists cs1. split_and!; [by apply prefix_app_r | done | done].
Qed.

Lemma calls_within_bind_r {A B} (c : M W A) (k : A → M W B) full :
  calls_within c full → (∀ a, calls_within (k a) []) → calls_within (bind c k) full.
Proof.
  intros Hc Hk. rewrite <- (app_nil_r full). by apply calls_within_bind.
Qed.

Lemma calls_within_delegate self m : calls_within (if_delegate_has_method cls self m) [].
Proof.
  apply calls_within_pure. intros w. unfold if_delegate_has_method, bind, liftR.
  destruct (_final_estimator self) as [final|e]; [|done]. by destruct (hasattr cls final m).
Qed.

Lemma calls_within_through ts X :
  calls_within (through cls ts X) ((λ step, (step.2, Transform)) <$> ts).
Proof.
  revert X. induction ts as [|[name t] ts IH]; intros X; [apply calls_within_ret|].
  cbn [through fmap list_fmap snd].
  apply (calls_within_bind _ _ [] ((t, Transform) :: _)); [apply calls_within_getattr|].
  intros g. apply (calls_within_bind _ _ [(t, Transform)]); [apply calls_within_invoke|].
  intros Xt. apply IH.
Qed.

Lemma calls_within_terminal op final X y :
  calls_within (terminal cls op final X y) [(final, op_meth op)].
Proof.
  destruct op; cbn [terminal op_meth];
    (apply (calls_within_bind _ _ [] [_]); [apply calls_within_getattr|]; intros f;
     rewrite <- (app_nil_r [_]);
     apply calls_within_bind; [apply calls_within_invoke|]; intros r;
     apply calls_within_ret).
Qed.

(** The calls of an operation only depend on what an observer of the
    steps sees. *)
Lemma calls_within_observed {A} (c c' : M W A) full :
  (∀ w, observe (c w) = observe (c' w)) → calls_within c' full → calls_within c full.
Proof.
  intros Hobs Hc' w r w' Hrun. pose proof (Hobs w) as Ho. rewrite Hrun in Ho.
  destruct (c' w) as [r' w''] eqn:Hrun'.
  apply observe_eq in Ho as [Hr [_ Hcalls]]. cbn in Hr, Hcalls. subst r'.
  destruct (Hc' _ _ _ Hrun') as (cs & Hpre & Htr & Hfull).
  exists cs. split_and!; [done | congruence | done].
Qed.

(** What inference calls, and in which order: the [transform] of the
    steps that are no resamplers (of the steps before the last, and for
    [transform] of all the steps), then, except for [transform], the
    matching method of the final estimator.  A run that raises has made
    the first of these calls only; no run calls a fitting method. *)
Theorem inference_calls op self ts name final X y :
  steps self = ts ++ [(name, final)] →
  (op = OpScore → ∀ d, is_Some (shape d)) →
  calls_within (run_inference cls shape op self X y)
    (match op with
     | OpTransform =>
         (λ step, (step.2, Transform))
           <$> filter (λ step, is_resampler cls step = false) (steps self)
     | _ =>
         ((λ step, (step.2, Transform))
            <$> filter (λ step, is_resampler cls step = false) ts)
         ++ [(final, op_meth op)]
     end).
Proof.
  intros Hs Hshape.
  apply (calls_within_observed _ (inference_as_coded cls op self X y)).
  { intros w. destruct op; try (by rewrite run_inference_exact).
    apply run_inference_score. by apply Hshape. }
  assert (∀ op', calls_within (inference_described cls op' self X y)
            (((λ step, (step.2, Transform))
                <$> filter (λ step, is_resampler cls step = false) ts)
             ++ [(final, op_meth op')])) as Hdescribed.
  { intros op'. unfold inference_described.
    rewrite Hs, but_last_snoc.
    apply (calls_within_bind _ _ []); [apply calls_within_delegate|]. intros _.
    apply calls_within_bind; [apply calls_within_through|]. intros Xt.
    rewrite (final_estimator_snoc self ts name final) by (by rewrite Hs).
    apply (calls_within_ext _ (terminal cls op' final Xt y)); [done|].
    apply calls_within_terminal. }
  destruct op; cbn [inference_as_coded]; try apply Hdescribed.
  unfold transform_all_steps.
  apply (calls_within_bind _ _ []); [apply calls_within_delegate|]. intros _.
  apply calls_within_bind_r; [apply calls_within_through|]. intros Xt.
  apply calls_within_ret.
Qed.

(** [sample] sends the data through the [transform] of the steps before
    the last that are no resamplers and hands it, with the labels as they
    came in, to the [sample] of the final estimator; these are all its
    calls. *)
Theorem sample_transforms_then_samples self ts name final X y :
  steps self = ts ++ [(name, final)] →
  (∀ w, sample cls self X y w
        = (let* _ := if_delegate_has_method cls self Sample in
           let* Xt := through cls (filter (λ step, is_resampler cls step = false) ts) X in
           let* f := getattr_ (m_sample (cls final)) in
           invoke final Sample (f Xt y)) w)
  ∧ calls_within (sample cls self X y)
      (((λ step, (step.2, Transform))
          <$> filter (λ step, is_resampler cls step = false) ts)
       ++ [(final, Sample)]).
Proof.
  intros Hs.
  assert (∀ w, sample cls self X y w
        = (let* _ := if_delegate_has_method cls self Sample in
           let* Xt := through cls (filter (λ step, is_resampler cls step = false) ts) X in
           let* f := getattr_ (m_sample (cls final)) in
           invoke final Sample (f Xt y)) w) as Heq.
  { intros w. unfold sample. apply bind_ext; [done|]. intros _ w1.
    rewrite Hs, but_last_snoc. apply bind_ext; [apply skip_loop_through|].
    intros Xt w2. rewrite (final_estimator_snoc self ts name final) by (by rewrite Hs).
    by rewrite bind_liftR_Ok. }
  split; [exact Heq|].
  apply (calls_within_ext _ _ _ Heq).
  apply (calls_within_bind _ _ []); [apply calls_within_delegate|]. intros _.
  apply calls_within_bind; [apply calls_within_through|]. intros Xt.
  apply (calls_within_bind _ _ [] [_]); [apply calls_within_getattr|]. intros f.
  apply calls_within_invoke.
Qed.

(** [inverse_transform] never returns a value, whatever the pipeline and
    the data: it raises [IndexError], [AttributeError] or [NameError], and
    it has called no step by then. *)
Theorem inverse_transform_never_returns self X w :
  ∃ e w', inverse_transform cls ndim add_axis self X w = (Raise e, w')
          ∧ e ∈ [IndexError; AttributeError; NameError]
          ∧ same_view w' w.
Proof.
  destruct (steps self) as [|step ts] eqn:Hsteps using rev_ind.
  - exists IndexError, w. split_and!; [|set_solver|done].
    unfold inverse_transform, if_delegate_has_method, _final_estimator, bind, liftR.
    by rewrite Hsteps.
  - clear IHts. destruct step as [name final].
    pose proof (final_estimator_snoc self ts name final Hsteps) as Hfinal.
    destruct (hasattr cls final InverseTransform) eqn:Hcap.
    + destruct (ndim X) as [nd|] eqn:Hnd.
      * destruct (inverse_transform_NameError cls ndim add_axis self ts name final X nd w
                    Hsteps Hcap Hnd) as (w' & Hrun & Hview).
        exists NameError, w'. split_and!; [done|set_solver|done].
      * exists AttributeError, w. split_and!; [|set_solver|done].
        unfold inverse_transform. unfold bind at 1.
        rewrite (if_delegate_has_method_Ok cls self _ final w Hfinal Hcap).
        by rewrite Hnd.
    + exists AttributeError, w. split_and!; [|set_solver|done].
      unfold inverse_transform. unfold bind at 1.
      by rewrite (if_delegate_has_method_missing cls self _ final w Hfinal Hcap).
Qed.

End Calls.

Lemma inference_calls_witness :
  steps Demo.pipe
  = [("scaler", 0%nat); ("sampler", 1%nat); ("plain", 4%nat)] ++ [("clf", 2%nat)]
  ∧ (∀ d, is_Some (Demo.shape d))
  ∧ calls_within (run_inference Demo.cls Demo.shape OpScore Demo.pipe [3; 4] [0; 1])
      [(0%nat, Transform); (4%nat, Transform); (2%nat, Score)].
Proof.
  assert (∀ d, is_Some (Demo.shape d)) as Hshape by (intros d; eexists; reflexivity).
  split; [reflexivity|]. split; [exact Hshape|].
  exact (inference_calls Demo.cls Demo.shape OpScore Demo.pipe
           [("scaler", 0%nat); ("sampler", 1%nat); ("plain", 4%nat)] "clf" 2%nat
           [3; 4] [0; 1] eq_refl (λ _, Hshape)).
Defined.

Lemma sample_transforms_then_samples_witness :
  steps {| steps := [("scaler", 0%nat); ("sampler", 1%nat)] |}
  = [("scaler", 0%nat)] ++ [("sampler", 1%nat)]
  ∧ calls_within
      (sample Demo.cls {| steps := [("scaler", 0%nat); ("sampler", 1%nat)] |} [3; 4] [0; 1])
      [(0%nat, Transform); (1%nat, Sample)].
Proof.
  split; [reflexivity|].
  exact (proj2 (sample_transforms_then_samples Demo.cls
                  {| steps := [("scaler", 0%nat); ("sampler", 1%nat)] |}
                  [("scaler", 0%nat)] "sampler" 1%nat [3; 4] [0; 1] eq_refl)).
Defined.
